(** * Real-time vision system: text cleaning, stability filter,
      priority arbitration and the speech queue of [main.py].

    Python [str] values are modelled as lists of 8-bit code points
    (the Latin-1 range of Unicode), with the character classes of
    [str.isspace], [str.isdigit], [str.lower] and the regular
    expression classes [\s] and [\w] written out for that range. *)

From Stdlib Require Import List Ascii String Bool Arith NArith ZArith Lia PrimFloat.
From Stdlib Require Import Permutation Sorted.
Import ListNotations.

Set Implicit Arguments.

(** ** Python strings *)

Module PyStr.

Definition str := list ascii.

Definition py (s : string) : str := list_ascii_of_string s.
Arguments py s%_string.

Definition ord (c : ascii) : N := N_of_ascii c.

Definition between (lo hi n : N) : bool := ((lo <=? n) && (n <=? hi))%N.

(** [str.isspace] on one character; [\s] of [re] is the same class. *)
Definition isspace (c : ascii) : bool :=
  let n := ord c in
  between 9 13 n || between 28 32 n || (n =? 133)%N || (n =? 160)%N.

(** One character of [str.isdigit]. *)
Definition isdigit_char (c : ascii) : bool :=
  let n := ord c in
  between 48 57 n || (n =? 178)%N || (n =? 179)%N || (n =? 185)%N.

(** [\w] of [re] on a [str] pattern: alphanumeric or underscore. *)
Definition isword (c : ascii) : bool :=
  let n := ord c in
  between 48 57 n || between 65 90 n || (n =? 95)%N || between 97 122 n
  || (n =? 170)%N || (n =? 178)%N || (n =? 179)%N || (n =? 181)%N
  || (n =? 185)%N || (n =? 186)%N || between 188 190 n
  || between 192 214 n || between 216 246 n || between 248 255 n.

Definition lower_char (c : ascii) : ascii :=
  let n := ord c in
  if between 65 90 n || between 192 214 n || between 216 222 n
  then ascii_of_N (n + 32) else c.

Definition lower (s : str) : str := map lower_char s.

(** [s.isdigit()]: false on the empty string. *)
Definition isdigit (s : str) : bool :=
  match s with
  | [] => false
  | _ => forallb isdigit_char s
  end.

Fixpoint eqb (a b : str) : bool :=
  match a, b with
  | [], [] => true
  | x :: a', y :: b' => Ascii.eqb x y && eqb a' b'
  | _, _ => false
  end.

Definition len (s : str) : nat := List.length s.

(** Truth value of a string: non-empty. *)
Definition truthy (s : str) : bool :=
  match s with [] => false | _ => true end.

Fixpoint lstrip (s : str) : str :=
  match s with
  | [] => []
  | c :: r => if isspace c then lstrip r else s
  end.

Definition rstrip (s : str) : str := rev (lstrip (rev s)).

Definition strip (s : str) : str := rstrip (lstrip s).

Definition starts_word (s : str) : bool :=
  match s with
  | [] => false
  | c :: _ => negb (isspace c)
  end.

(** [s.split()]: the maximal runs of non-whitespace characters. *)
Fixpoint split (s : str) : list str :=
  match s with
  | [] => []
  | c :: r =>
      if isspace c then split r
      else if starts_word r then
        match split r with
        | w :: ws => (c :: w) :: ws
        | [] => [[c]]
        end
      else [c] :: split r
  end.

(** A word as [split] produces them: non-empty, without whitespace. *)
Definition word (w : str) : Prop :=
  w <> [] /\ Forall (fun c => isspace c = false) w.

(** [sep.join(ws)]. *)
Fixpoint join (sep : str) (ws : list str) : str :=
  match ws with
  | [] => []
  | w :: rest =>
      match rest with
      | [] => w
      | _ => w ++ sep ++ join sep rest
      end
  end.

End PyStr.

Import PyStr.

(** ** Configuration *)

(** The literal [0.6] denotes the binary64 value nearest to it. *)
Definition OCR_CONFIDENCE_THRESHOLD : float := 0x1.3333333333333p-1%float.
Definition OCR_STABILITY_FRAMES : nat := 2.
Definition MAX_AUDIO_LENGTH : nat := 15.
Definition MIN_TEXT_LENGTH : nat := 3.

(** ** Text cleaning *)

(** The set kept by [re.sub(r'[^\w\s.,!?\'\-]', '', text)]. *)
Definition allowed_char (c : ascii) : bool :=
  isword c || isspace c
  || Ascii.eqb c "."%char || Ascii.eqb c ","%char || Ascii.eqb c "!"%char
  || Ascii.eqb c "?"%char || Ascii.eqb c "'"%char || Ascii.eqb c "-"%char.

Definition remove_special (text : str) : str := filter allowed_char text.

(** [re.sub(r'\s+', ' ', text)]: [in_run] tells that the previous
    character was whitespace, whose run was already replaced. *)
Fixpoint collapse_from (in_run : bool) (text : str) : str :=
  match text with
  | [] => []
  | c :: r =>
      if isspace c then
        if in_run then collapse_from true r
        else " "%char :: collapse_from true r
      else c :: collapse_from false r
  end.

Definition normalize_whitespace (text : str) : str := collapse_from false text.

(** [len(w) > 1 or w.lower() in ['a', 'i'] or w.isdigit()]. *)
Definition keep_word (w : str) : bool :=
  (1 <? len w)
  || (eqb (lower w) (py "a") || eqb (lower w) (py "i"))
  || isdigit w.

Definition clean_ocr_text (text : str) : str :=
  if negb (truthy text) then []
  else
    let text := remove_special text in
    let text := normalize_whitespace text in
    let words := split text in
    let words := filter keep_word words in
    strip (join (py " ") words).

(** ** External capabilities *)

(** One entry of [ocr_reader.readtext]: the corner points of the box
    as [(x, y)] pairs, the recognised text and its confidence. *)
Record OcrResult := {
  bbox : list (Z * Z);
  text : str;
  confidence : float
}.

(** What a call into an external library does: it returns or raises. *)
Inductive Outcome (A : Type) :=
| Raised
| Returned (a : A).
Arguments Raised {A}.
Arguments Returned {A} a.

(** The OCR reader and the captioning model, [None] before they are
    initialised. [vl_model] stands for the whole of processing,
    generation and decoding of one frame. *)
Class Capabilities (Frame : Type) := {
  ocr_reader : option (Frame -> Outcome (list OcrResult));
  vl_model : option (Frame -> Outcome str)
}.

(** ** Text detection *)

(** The key [lambda x: (x[0][0][1], x[0][0][0])]; indexing an empty box
    raises. *)
Definition sort_key (r : OcrResult) : Outcome (Z * Z) :=
  match bbox r with
  | (x, y) :: _ => Returned (y, x)
  | [] => Raised
  end.

Definition key_lt (a b : Z * Z) : bool :=
  ((fst a <? fst b) || ((fst a =? fst b) && (snd a <? snd b)))%Z.

(** Stable insertion: [kr] goes before the first entry whose key is not
    smaller, so entries of equal key keep their order. *)
Fixpoint insert_by_key (kr : (Z * Z) * OcrResult)
    (sorted : list ((Z * Z) * OcrResult)) : list ((Z * Z) * OcrResult) :=
  match sorted with
  | [] => [kr]
  | kr' :: rest =>
      if key_lt (fst kr') (fst kr) then kr' :: insert_by_key kr rest
      else kr :: sorted
  end.

Fixpoint with_keys (results : list OcrResult)
    : Outcome (list ((Z * Z) * OcrResult)) :=
  match results with
  | [] => Returned []
  | r :: rest =>
      match sort_key r, with_keys rest with
      | Returned k, Returned krs => Returned ((k, r) :: krs)
      | _, _ => Raised
      end
  end.

(** [sorted(results, key=...)]. *)
Definition sorted_results (results : list OcrResult) : Outcome (list OcrResult) :=
  match with_keys results with
  | Raised => Raised
  | Returned krs => Returned (map snd (fold_right insert_by_key [] krs))
  end.

(** The loop that filters by confidence and length. *)
Fixpoint collect_texts (results_sorted : list OcrResult) : list str :=
  match results_sorted with
  | [] => []
  | r :: rest =>
      if PrimFloat.ltb OCR_CONFIDENCE_THRESHOLD (confidence r)
         && (MIN_TEXT_LENGTH <=? len (strip (text r)))
      then strip (text r) :: collect_texts rest
      else collect_texts rest
  end.

Definition detect_text {Frame} `{Capabilities Frame} (frame : Frame) : str :=
  match ocr_reader with
  | None => []
  | Some readtext =>
      match readtext frame with
      | Raised => []
      | Returned results =>
          match results with
          | [] => []
          | _ =>
              match sorted_results results with
              | Raised => []
              | Returned results_sorted =>
                  let detected_texts := collect_texts results_sorted in
                  match detected_texts with
                  | [] => []
                  | _ =>
                      let full_text := join (py " ") detected_texts in
                      let full_text := clean_ocr_text full_text in
                      if MIN_TEXT_LENGTH <=? len full_text then full_text
                      else []
                  end
              end
          end
      end
  end.

(** ** Object description *)

Definition detect_objects {Frame} `{Capabilities Frame} (frame : Frame) : str :=
  match vl_model with
  | None => []
  | Some generate =>
      match generate frame with
      | Raised => []
      | Returned caption => strip caption
      end
  end.

(** ** Stability of the detected text *)

(** The loop over [ocr_text_buffer[1:]], leaving at the first entry
    that differs. *)
Fixpoint all_match (first_text : str) (rest : list str) : bool :=
  match rest with
  | [] => true
  | t :: rest' => if negb (eqb t first_text) then false else all_match first_text rest'
  end.

(** [check_text_stability] on the buffer it updates: the returned text
    and the buffer left behind. *)
Definition check_text_stability (detected_text : str) (ocr_text_buffer : list str)
    : str * list str :=
  let buffer := ocr_text_buffer ++ [detected_text] in
  let buffer :=
    if OCR_STABILITY_FRAMES <? List.length buffer then tl buffer else buffer in
  if List.length buffer <? OCR_STABILITY_FRAMES then ([], buffer)
  else
    match buffer with
    | [] => ([], buffer) (* not reached: the buffer holds two entries here *)
    | first_text :: rest =>
        if negb (truthy first_text) then
          ((if forallb (fun t => negb (truthy t)) buffer then [] else []), buffer)
        else if all_match first_text rest then (first_text, buffer)
        else ([], buffer)
    end.

(** ** The speech engine *)

Record TTSEngine := {
  tts_running : bool;
  speech_queue : list str;
  last_spoken : str
}.

Definition TTSEngine_init : TTSEngine :=
  {| tts_running := true; speech_queue := []; last_spoken := [] |}.

(** [while not q.empty(): q.get_nowait()]. *)
Fixpoint drain (q : list str) : list str :=
  match q with
  | [] => []
  | _ :: q' => drain q'
  end.

Definition queue_put (q : list str) (x : str) : list str := q ++ [x].

(** The guard of [speak]: [text and len(text.strip()) > 2]. *)
Definition long_enough (text : str) : bool :=
  truthy text && (2 <? len (strip text)).

Definition speak (t : TTSEngine) (text : str) : TTSEngine :=
  if long_enough text then
    {| tts_running := tts_running t;
       speech_queue := queue_put (drain (speech_queue t)) text;
       last_spoken := last_spoken t |}
  else t.

(** One iteration of [_speech_worker]: the engine afterwards and the
    string handed to [speaker.Speak], if the iteration reaches it.
    [speak_ok] tells whether that call returns rather than raises. *)
Definition speech_worker_step (speak_ok : bool) (t : TTSEngine)
    : TTSEngine * option str :=
  match speech_queue t with
  | [] => (t, None)
  | text :: q =>
      let t := {| tts_running := tts_running t; speech_queue := q;
                  last_spoken := last_spoken t |} in
      if negb (truthy text) || (len (strip text) <? 2) then (t, None)
      else if eqb text (last_spoken t) then (t, None)
      else
        let words := split text in
        let text :=
          if MAX_AUDIO_LENGTH <? List.length words
          then join (py " ") (firstn MAX_AUDIO_LENGTH words)
          else text in
        ((if speak_ok
          then {| tts_running := tts_running t; speech_queue := speech_queue t;
                  last_spoken := text |}
          else t),
         Some text)
  end.

(** ** The frame queue *)

(** [queue.Queue(maxsize)] holding frames, oldest first. *)
Record FrameQueue (Frame : Type) := {
  maxsize : nat;
  items : list Frame
}.

Definition frame_queue_init (Frame : Type) : FrameQueue Frame :=
  {| maxsize := 2; items := [] |}.

(** [Queue.full]: [0 < maxsize <= qsize]. *)
Definition full {Frame} (q : FrameQueue Frame) : bool :=
  (0 <? maxsize q) && (maxsize q <=? List.length (items q)).

(** [Queue.put] with its default [block=True]: [None] when the caller
    would wait for a free slot. *)
Definition put {Frame} (q : FrameQueue Frame) (x : Frame) : option (FrameQueue Frame) :=
  if full q then None
  else Some {| maxsize := maxsize q; items := items q ++ [x] |}.

(** The hand-over at the end of one capture step of [camera_worker]. *)
Definition camera_enqueue {Frame} (q : FrameQueue Frame) (frame : Frame)
    : option (FrameQueue Frame) :=
  if negb (full q) then put q frame else Some q.

(** ** Global state of the detection thread *)

Record Globals := {
  current_text : str;
  current_objects : str;
  current_audio : str;
  ocr_text_buffer : list str;
  last_spoken_text : str;
  ocr_mode_active : bool;
  tts : TTSEngine
}.

Definition Globals_init : Globals :=
  {| current_text := [];
     current_objects := [];
     current_audio := py "System initializing...";
     ocr_text_buffer := [];
     last_spoken_text := [];
     ocr_mode_active := false;
     tts := TTSEngine_init |}.

(** What the detection thread does to its collaborators: a call of
    [detect_objects], with the globals as they are at that moment, and
    a call of [tts.speak]. *)
Inductive Event :=
| CallDetectObjects (at_call : Globals)
| CallSpeak (text : str).

(** Computations over the globals that record their calls. *)
Definition M (A : Type) : Type := Globals -> A * Globals * list Event.

Definition ret {A} (a : A) : M A := fun g => (a, g, []).

Definition bind {A B} (c : M A) (k : A -> M B) : M B :=
  fun g =>
    let '(a, g1, l1) := c g in
    let '(b, g2, l2) := k a g1 in
    (b, g2, l1 ++ l2).

Declare Scope worker_scope.
Delimit Scope worker_scope with worker.
Notation "x <- c ;; k" := (bind c (fun x => k))
  (at level 61, c at next level, right associativity) : worker_scope.
Notation "c ;; k" := (bind c (fun _ => k))
  (at level 61, right associativity) : worker_scope.

Definition read {A} (proj : Globals -> A) : M A := fun g => (proj g, g, []).

Definition write (upd : Globals -> Globals) : M unit := fun g => (tt, upd g, []).

Definition set_current_text (v : str) (g : Globals) : Globals :=
  {| current_text := v; current_objects := current_objects g;
     current_audio := current_audio g; ocr_text_buffer := ocr_text_buffer g;
     last_spoken_text := last_spoken_text g;
     ocr_mode_active := ocr_mode_active g; tts := tts g |}.

Definition set_current_objects (v : str) (g : Globals) : Globals :=
  {| current_text := current_text g; current_objects := v;
     current_audio := current_audio g; ocr_text_buffer := ocr_text_buffer g;
     last_spoken_text := last_spoken_text g;
     ocr_mode_active := ocr_mode_active g; tts := tts g |}.

Definition set_current_audio (v : str) (g : Globals) : Globals :=
  {| current_text := current_text g; current_objects := current_objects g;
     current_audio := v; ocr_text_buffer := ocr_text_buffer g;
     last_spoken_text := last_spoken_text g;
     ocr_mode_active := ocr_mode_active g; tts := tts g |}.

Definition set_ocr_text_buffer (v : list str) (g : Globals) : Globals :=
  {| current_text := current_text g; current_objects := current_objects g;
     current_audio := current_audio g; ocr_text_buffer := v;
     last_spoken_text := last_spoken_text g;
     ocr_mode_active := ocr_mode_active g; tts := tts g |}.

Definition set_last_spoken_text (v : str) (g : Globals) : Globals :=
  {| current_text := current_text g; current_objects := current_objects g;
     current_audio := current_audio g; ocr_text_buffer := ocr_text_buffer g;
     last_spoken_text := v;
     ocr_mode_active := ocr_mode_active g; tts := tts g |}.

Definition set_ocr_mode_active (v : bool) (g : Globals) : Globals :=
  {| current_text := current_text g; current_objects := current_objects g;
     current_audio := current_audio g; ocr_text_buffer := ocr_text_buffer g;
     last_spoken_text := last_spoken_text g;
     ocr_mode_active := v; tts := tts g |}.

Definition set_tts (v : TTSEngine) (g : Globals) : Globals :=
  {| current_text := current_text g; current_objects := current_objects g;
     current_audio := current_audio g; ocr_text_buffer := ocr_text_buffer g;
     last_spoken_text := last_spoken_text g;
     ocr_mode_active := ocr_mode_active g; tts := v |}.

(** [check_text_stability(detected_text)] on the global buffer. *)
Definition call_check_text_stability (detected_text : str) : M str :=
  fun g =>
    let '(stable_text, buffer) :=
      check_text_stability detected_text (ocr_text_buffer g) in
    (stable_text, set_ocr_text_buffer buffer g, []).

(** [detect_objects(frame)], recorded with the globals at the call. *)
Definition call_detect_objects {Frame} `{Capabilities Frame} (frame : Frame) : M str :=
  fun g => (detect_objects frame, g, [CallDetectObjects g]).

(** [tts.speak(output)]. *)
Definition call_speak (output : str) : M unit :=
  fun g => (tt, set_tts (speak (tts g) output) g, [CallSpeak output]).

(** ** The priority detection worker *)

Local Open Scope worker_scope.

(** The body of the loop of [detection_worker] for one frame taken
    from the queue; the camera only queues frames, never [None]. The
    adapters catch what the models raise, so the body raises nothing. *)
Definition detection_cycle {Frame} `{Capabilities Frame} (frame : Frame) : M unit :=
  let detected_text := detect_text frame in
  stable_text <- call_check_text_stability detected_text ;;
  write (set_current_text
           (if truthy detected_text then detected_text
            else py "No text detected")) ;;
  if truthy stable_text then
    write (set_ocr_mode_active true) ;;
    last <- read last_spoken_text ;;
    (if negb (eqb stable_text last) then
       let output := stable_text in
       write (set_current_audio output) ;;
       write (set_last_spoken_text stable_text) ;;
       call_speak output
     else ret tt) ;;
    write (set_current_objects (py "[Paused during text reading]"))
  else
    active <- read ocr_mode_active ;;
    (if active : bool then
       write (set_ocr_mode_active false) ;;
       write (set_last_spoken_text [])
     else ret tt) ;;
    detected_objects <- call_detect_objects frame ;;
    write (set_current_objects
             (if truthy detected_objects then detected_objects
              else py "No objects detected")) ;;
    last <- read last_spoken_text ;;
    if truthy detected_objects && negb (eqb detected_objects last) then
      let output := detected_objects in
      write (set_current_audio output) ;;
      write (set_last_spoken_text detected_objects) ;;
      call_speak output
    else ret tt.

(** The loop of [detection_worker] over the frames it takes from the
    queue, in order. *)
Fixpoint detection_worker {Frame} `{Capabilities Frame} (frames : list Frame) : M unit :=
  match frames with
  | [] => ret tt
  | frame :: rest => detection_cycle frame ;; detection_worker rest
  end.

Local Close Scope worker_scope.

Definition globals_after {A} (r : A * Globals * list Event) : Globals := snd (fst r).
Definition events_of {A} (r : A * Globals * list Event) : list Event := snd r.

Definition is_detect_objects (e : Event) : bool :=
  match e with CallDetectObjects _ => true | CallSpeak _ => false end.

Definition is_speak (e : Event) : bool :=
  match e with CallSpeak _ => true | CallDetectObjects _ => false end.

(** The stable text the cycle for [frame] obtains in state [g]. *)
Definition stable_text_of {Frame} `{Capabilities Frame} (frame : Frame) (g : Globals) : str :=
  fst (check_text_stability (detect_text frame) (ocr_text_buffer g)).

(** ** Readings of the specification, for comparison with the code *)

(** A window is stable when it has reached capacity [n], every entry
    equals the first entry, and that entry is non-empty. *)
Definition window_stable (n : nat) (window : list str) : bool :=
  (n <=? List.length window)
  && match window with
     | [] => false
     | first :: _ => forallb (fun e => eqb e first) window && truthy first
     end.

(** The last [n] entries of a sequence. *)
Definition last_n {A} (n : nat) (l : list A) : list A :=
  rev (firstn n (rev l)).

(** Drop-oldest insertion into a full queue: the oldest frame leaves
    and the new one enters. *)
Definition drop_oldest_put {Frame} (q : FrameQueue Frame) (x : Frame) : FrameQueue Frame :=
  {| maxsize := maxsize q; items := tl (items q) ++ [x] |}.

(** The stability filter run over a sequence of observations from the
    empty window: the buffer it ends with. *)
Definition buffer_after (observations : list str) : list str :=
  fold_left (fun buffer t => snd (check_text_stability t buffer)) observations [].

(** The last-spoken string as the object branch of a cycle started in
    [g] sees it: emptied when the cycle leaves OCR mode. *)
Definition last_after_exit (g : Globals) : str :=
  if ocr_mode_active g then [] else last_spoken_text g.

(** A call of [detect_objects] made while the mode flag is off. *)
Definition called_in_object_mode (e : Event) : Prop :=
  match e with
  | CallDetectObjects at_call => ocr_mode_active at_call = false
  | CallSpeak _ => True
  end.

(** ** Sample frames *)

(** A frame of the samples is given by what the two models make of it. *)
Record SampleFrame := {
  sample_ocr : Outcome (list OcrResult);
  sample_caption : Outcome str
}.

#[export] Instance sample_capabilities : Capabilities SampleFrame :=
  {| ocr_reader := Some sample_ocr; vl_model := Some sample_caption |}.

Definition box (x y w h : Z) : list (Z * Z) :=
  [(x, y); (x + w, y); (x + w, y + h); (x, y + h)]%Z.

(** A red car waiting at a stop sign. *)
Definition frame_stop : SampleFrame :=
  {| sample_ocr :=
       Returned [{| bbox := box 40 30 200 80; text := py "STOP";
                    confidence := 0.875%float |}];
     sample_caption := Returned (py "a red car") |}.

Definition frame_car : SampleFrame :=
  {| sample_ocr := Returned [];
     sample_caption := Returned (py "a red car") |}.

Definition sixteen_words : str :=
  py "no parking on this side of the street between the hours of nine and five today".

Definition fifteen_words : str :=
  py "no parking on this side of the street between the hours of nine and five".


Definition frame_short_caption : SampleFrame :=
  {| sample_ocr := Returned [];
     sample_caption := Returned (py "tv") |}.

(** The globals once the car was described and the sign read. *)
Definition state_reading_stop : Globals :=
  globals_after (detection_worker [frame_car; frame_stop; frame_stop] Globals_init).


Definition frame_blurry : SampleFrame :=
  {| sample_ocr :=
       Returned [{| bbox := box 40 30 200 80; text := py "STOP";
                    confidence := OCR_CONFIDENCE_THRESHOLD |};
                 {| bbox := box 40 130 200 80; text := py "GO";
                    confidence := 0.875%float |}];
     sample_caption := Returned (py "a blurry sign") |}.

(** Two regions listed bottom line first. *)
Definition sample_results : list OcrResult :=
  [{| bbox := box 40 130 200 80; text := py "AHEAD"; confidence := 0.875%float |};
   {| bbox := box 240 30 200 80; text := py "SIGN"; confidence := 0.875%float |};
   {| bbox := box 40 30 200 80; text := py "STOP"; confidence := 0.875%float |}].

(** ** The speech worker loop *)

(** The text [_speech_worker] passes on: the first [MAX_AUDIO_LENGTH]
    words joined by single spaces when there are more, else the text. *)
Definition capped (text : str) : str :=
  if MAX_AUDIO_LENGTH <? List.length (split text)
  then join (py " ") (firstn MAX_AUDIO_LENGTH (split text))
  else text.

(** One pass of [while self.running] in [_speech_worker]. *)
Definition speech_worker_iteration (speak_ok : bool) (t : TTSEngine)
    : TTSEngine * option str :=
  if tts_running t then speech_worker_step speak_ok t else (t, None).

(** [TTSEngine.stop]. *)
Definition stop (t : TTSEngine) : TTSEngine :=
  {| tts_running := false; speech_queue := speech_queue t;
     last_spoken := last_spoken t |}.

(** ** The camera worker *)

(** [Queue.get(timeout=...)]: [None] when the queue stays empty and
    [queue.Empty] is raised. *)
Definition get {Frame} (q : FrameQueue Frame) : option (Frame * FrameQueue Frame) :=
  match items q with
  | [] => None
  | x :: rest => Some (x, {| maxsize := maxsize q; items := rest |})
  end.

(** What [camera_worker] owns: the JPEG shown by the dashboard, the
    queue towards detection and its frame counter. *)
Record CameraState (Frame Jpg : Type) := {
  last_frame_jpg : option Jpg;
  frame_queue : FrameQueue Frame;
  frame_count : nat
}.

Definition camera_state_init (Frame Jpg : Type) : CameraState Frame Jpg :=
  {| last_frame_jpg := None; frame_queue := frame_queue_init Frame;
     frame_count := 0 |}.

(** One pass of the loop of [camera_worker]. [read] is the frame of
    [cap.read()], [None] when [ret] is false; the result is [None] when
    the pass would wait in [put]. *)
Definition camera_step {Frame Jpg} (imencode : Frame -> Jpg) (read : option Frame)
    (st : CameraState Frame Jpg) : option (CameraState Frame Jpg) :=
  match read with
  | None => Some st
  | Some frame =>
      let count := S (frame_count st) in
      let jpg := imencode frame in
      match camera_enqueue (frame_queue st) frame with
      | None => None
      | Some q =>
          Some {| last_frame_jpg := Some jpg; frame_queue := q;
                  frame_count := count |}
      end
  end.

(** [camera_worker] over the outcomes of its reads; it returns at once
    when the camera cannot be opened. *)
Fixpoint camera_loop {Frame Jpg} (imencode : Frame -> Jpg) (reads : list (option Frame))
    (st : CameraState Frame Jpg) : option (CameraState Frame Jpg) :=
  match reads with
  | [] => Some st
  | read :: rest =>
      match camera_step imencode read st with
      | None => None
      | Some st' => camera_loop imencode rest st'
      end
  end.

Definition camera_worker {Frame Jpg} (imencode : Frame -> Jpg) (opened : bool)
    (reads : list (option Frame)) (st : CameraState Frame Jpg)
    : option (CameraState Frame Jpg) :=
  if opened then camera_loop imencode reads st else Some st.

(** The frames of the successful reads, in order. *)
Fixpoint successful {Frame} (reads : list (option Frame)) : list Frame :=
  match reads with
  | [] => []
  | Some frame :: rest => frame :: successful rest
  | None :: rest => successful rest
  end.

(** ** The dashboard *)

(** The object returned by the [/status] route. *)
Definition status (g : Globals) : list (str * str) :=
  [(py "audio", current_audio g);
   (py "text", current_text g);
   (py "objects", current_objects g)].

(** ** The threads together *)

(** The three worker threads interleaved at the grain of one pass of
    each loop. The lists record what happened: the frames captured, the
    frames taken by detection, the calls of the detection thread and
    the strings handed to the synthesizer. *)
Record Pipeline (Frame : Type) := {
  pipe_queue : FrameQueue Frame;
  pipe_globals : Globals;
  captured : list Frame;
  detected : list Frame;
  calls : list Event;
  spoken : list str
}.

Definition pipeline_init (Frame : Type) : Pipeline Frame :=
  {| pipe_queue := frame_queue_init Frame; pipe_globals := Globals_init;
     captured := []; detected := []; calls := []; spoken := [] |}.

Inductive Action (Frame : Type) :=
| Capture (frame : Frame)
| Detect
| Speech (speak_ok : bool).
Arguments Detect {Frame}.
Arguments Speech {Frame} speak_ok.

(** One pass of one thread; [None] when that thread would wait for
    ever in a [put]. *)
Definition pipeline_step {Frame} `{Capabilities Frame} (a : Action Frame)
    (p : Pipeline Frame) : option (Pipeline Frame) :=
  match a with
  | Capture frame =>
      match camera_enqueue (pipe_queue p) frame with
      | None => None
      | Some q =>
          Some {| pipe_queue := q; pipe_globals := pipe_globals p;
                  captured := captured p ++ [frame]; detected := detected p;
                  calls := calls p; spoken := spoken p |}
      end
  | Detect =>
      match get (pipe_queue p) with
      | None => Some p
      | Some (frame, q) =>
          let r := detection_cycle frame (pipe_globals p) in
          Some {| pipe_queue := q; pipe_globals := globals_after r;
                  captured := captured p; detected := detected p ++ [frame];
                  calls := calls p ++ events_of r; spoken := spoken p |}
      end
  | Speech speak_ok =>
      let r := speech_worker_iteration speak_ok (tts (pipe_globals p)) in
      Some {| pipe_queue := pipe_queue p;
              pipe_globals := set_tts (fst r) (pipe_globals p);
              captured := captured p; detected := detected p;
              calls := calls p;
              spoken := spoken p ++ match snd r with
                                    | Some text => [text]
                                    | None => []
                                    end |}
  end.

Fixpoint pipeline_run {Frame} `{Capabilities Frame} (actions : list (Action Frame))
    (p : Pipeline Frame) : option (Pipeline Frame) :=
  match actions with
  | [] => Some p
  | a :: rest =>
      match pipeline_step a p with
      | None => None
      | Some p' => pipeline_run rest p'
      end
  end.

(** [l] is [m] with some entries left out, the order kept. *)
Inductive subseq {A : Type} : list A -> list A -> Prop :=
| subseq_nil : subseq [] []
| subseq_skip (x : A) (l m : list A) : subseq l m -> subseq l (x :: m)
| subseq_keep (x : A) (l m : list A) : subseq l m -> subseq (x :: l) (x :: m).

(** What holds of the pipeline after every pass of every thread. *)
Definition pipeline_inv {Frame} (p : Pipeline Frame) : Prop :=
  maxsize (pipe_queue p) = 2
  /\ List.length (items (pipe_queue p)) <= 2
  /\ List.length (speech_queue (tts (pipe_globals p))) <= 1
  /\ subseq (detected p ++ items (pipe_queue p)) (captured p)
  /\ Forall (fun t => In (CallSpeak t) (calls p))
        (speech_queue (tts (pipe_globals p)))
  /\ Forall (fun s => exists t, In (CallSpeak t) (calls p) /\ s = capped t)
        (spoken p).

(** The characters a cleaned text is made of: word characters, the
    kept punctuation and the plain space. *)
Definition output_char (c : ascii) : bool :=
  isword c
  || Ascii.eqb c "."%char || Ascii.eqb c ","%char || Ascii.eqb c "!"%char
  || Ascii.eqb c "?"%char || Ascii.eqb c "'"%char || Ascii.eqb c "-"%char
  || Ascii.eqb c " "%char.

(** A result that the filter of [detect_text] leaves out. *)
Definition filtered_out (r : OcrResult) : bool :=
  negb (PrimFloat.ltb OCR_CONFIDENCE_THRESHOLD (confidence r))
  || (len (strip (text r)) <? MIN_TEXT_LENGTH).

(** Reading order of two keys: not below-then-left the other way. *)
Definition key_le (a b : Z * Z) : Prop := key_lt b a = false.

(** Order of keyed results by their keys. *)
Definition keyed_le (a b : (Z * Z) * OcrResult) : Prop := key_le (fst a) (fst b).

(** * Properties *)

(** ** Strings *)

Lemma eqb_eq (a b : str) : eqb a b = true <-> a = b.
Proof.
  revert b; induction a as [| x a IH]; intros [| y b]; simpl; split;
    try congruence; try reflexivity.
  - intros H. apply andb_true_iff in H as [Hx Hr].
    apply Ascii.eqb_eq in Hx. apply IH in Hr. congruence.
  - intros H. injection H as -> ->.
    rewrite Ascii.eqb_refl. simpl. now apply IH.
Qed.

Lemma eqb_refl (a : str) : eqb a a = true.
Proof. now apply eqb_eq. Qed.

Lemma eqb_neq (a b : str) : eqb a b = false <-> a <> b.
Proof.
  split.
  - intros H E. apply eqb_eq in E. congruence.
  - intros H. destruct (eqb a b) eqn:E; [| reflexivity].
    apply eqb_eq in E. contradiction.
Qed.

Lemma truthy_false (s : str) : truthy s = false <-> s = [].
Proof. destruct s; simpl; split; congruence. Qed.

Lemma isspace_space : isspace " "%char = true.
Proof. reflexivity. Qed.

Lemma allowed_space : allowed_char " "%char = true.
Proof. reflexivity. Qed.

Lemma word_cons (c : ascii) (w : str) :
  isspace c = false -> Forall (fun c => isspace c = false) w -> word (c :: w).
Proof. intros Hc Hw. split; [discriminate | now constructor]. Qed.

Lemma split_words (s : str) : Forall word (split s).
Proof.
  induction s as [| c r IH]; simpl; [constructor |].
  destruct (isspace c) eqn:Hc; [exact IH |].
  destruct (starts_word r).
  - destruct (split r) as [| w ws].
    + constructor; [| constructor]. now apply word_cons.
    + inversion IH as [| ? ? [_ Hw] Hws]; subst.
      constructor; [now apply word_cons | assumption].
  - constructor; [now apply word_cons | assumption].
Qed.

Lemma split_chars (s : str) (w : str) (c : ascii) :
  In w (split s) -> In c w -> In c s.
Proof.
  revert w; induction s as [| d r IH]; simpl; intros w Hw Hc; [contradiction |].
  destruct (isspace d); [right; eauto |].
  destruct (starts_word r).
  - destruct (split r) as [| w' ws].
    + destruct Hw as [<- | []]. destruct Hc as [-> | []]. now left.
    + destruct Hw as [<- | Hw].
      * destruct Hc as [-> | Hc]; [now left | right].
        apply (IH w'); [now left | assumption].
      * right. apply (IH w); [now right | assumption].
  - destruct Hw as [<- | Hw].
    + destruct Hc as [-> | []]. now left.
    + right. eauto.
Qed.

Lemma collapse_chars (b : bool) (s : str) (c : ascii) :
  In c (collapse_from b s) -> In c s \/ c = " "%char.
Proof.
  revert b; induction s as [| d r IH]; simpl; intros b H; [contradiction |].
  destruct (isspace d).
  - destruct b.
    + destruct (IH _ H); auto.
    + destruct H as [<- | H]; [auto |]. destruct (IH _ H); auto.
  - destruct H as [<- | H]; [auto |]. destruct (IH _ H); auto.
Qed.

Lemma filter_id {A} (f : A -> bool) (l : list A) :
  Forall (fun x => f x = true) l -> filter f l = l.
Proof.
  induction 1 as [| x l Hx _ IH]; simpl; [reflexivity |].
  now rewrite Hx, IH.
Qed.

Lemma filter_filter {A} (f : A -> bool) (l : list A) :
  filter f (filter f l) = filter f l.
Proof.
  apply filter_id. apply Forall_forall. intros x Hx.
  now apply filter_In in Hx.
Qed.

Lemma join_cons (sep w : str) (ws : list str) :
  ws <> [] -> join sep (w :: ws) = w ++ sep ++ join sep ws.
Proof. destruct ws; [congruence | reflexivity]. Qed.

Lemma join_chars (ws : list str) (P : ascii -> Prop) :
  P " "%char -> Forall (Forall P) ws -> Forall P (join (py " ") ws).
Proof.
  intros Hsp. induction 1 as [| w ws Hw Hws IH]; [constructor |].
  destruct ws as [| w' ws']; [exact Hw |].
  rewrite join_cons by discriminate.
  apply Forall_app. split; [exact Hw |].
  simpl. constructor; assumption.
Qed.

Lemma lstrip_word_app (w rest : str) : word w -> lstrip (w ++ rest) = w ++ rest.
Proof.
  intros [Hne Hw]. destruct w as [| c w]; [congruence |].
  inversion Hw as [| ? ? Hc _]; subst. simpl. now rewrite Hc.
Qed.

Lemma join_starts_word (ws : list str) :
  Forall word ws -> lstrip (join (py " ") ws) = join (py " ") ws.
Proof.
  intros H. destruct H as [| w ws Hw Hws]; [reflexivity |].
  destruct ws as [| w' ws'].
  - simpl. rewrite <- (app_nil_r w). now apply lstrip_word_app.
  - rewrite join_cons by discriminate. now apply lstrip_word_app.
Qed.

Lemma word_last (w : str) :
  word w -> exists s c, w = s ++ [c] /\ isspace c = false.
Proof.
  intros [Hne Hw]. destruct (exists_last Hne) as (s & c & ->).
  exists s, c. split; [reflexivity |].
  apply Forall_app in Hw as [_ Hc]. now inversion Hc.
Qed.

Lemma join_last (ws : list str) :
  Forall word ws -> ws <> [] ->
  exists s c, join (py " ") ws = s ++ [c] /\ isspace c = false.
Proof.
  induction 1 as [| w ws Hw Hws IH]; intros Hne; [congruence |].
  destruct ws as [| w' ws'].
  - simpl. now apply word_last.
  - destruct IH as (s & c & E & Hc); [discriminate |].
    exists (w ++ py " " ++ s), c. split; [| exact Hc].
    rewrite join_cons by discriminate. rewrite E.
    now rewrite <- !app_assoc.
Qed.

Lemma rstrip_last (s : str) (c : ascii) :
  isspace c = false -> rstrip (s ++ [c]) = s ++ [c].
Proof.
  intros Hc. unfold rstrip. rewrite rev_app_distr. simpl. rewrite Hc.
  change (c :: rev s) with ([c] ++ rev s).
  rewrite rev_app_distr, rev_involutive. reflexivity.
Qed.

Lemma strip_join (ws : list str) :
  Forall word ws -> strip (join (py " ") ws) = join (py " ") ws.
Proof.
  intros H. unfold strip. rewrite join_starts_word by assumption.
  destruct ws as [| w ws]; [reflexivity |].
  destruct (join_last H) as (s & c & -> & Hc); [discriminate |].
  now apply rstrip_last.
Qed.

Lemma collapse_word_app (b : bool) (w rest : str) :
  word w -> collapse_from b (w ++ rest) = w ++ collapse_from false rest.
Proof.
  intros [Hne Hw]. revert b. induction Hw as [| c w Hc Hw IH]; [congruence |].
  intros b. simpl. rewrite Hc. f_equal.
  destruct w as [| d w']; [reflexivity |].
  apply IH. discriminate.
Qed.

Lemma collapse_word (b : bool) (w : str) : word w -> collapse_from b w = w.
Proof.
  intros H. rewrite <- (app_nil_r w) at 1.
  rewrite collapse_word_app by assumption. simpl. apply app_nil_r.
Qed.

Lemma collapse_join (ws : list str) (b : bool) :
  Forall word ws -> collapse_from b (join (py " ") ws) = join (py " ") ws.
Proof.
  intros H. revert b. induction H as [| w ws Hw Hws IH]; intros b; [reflexivity |].
  destruct ws as [| w' ws']; [now apply collapse_word |].
  rewrite join_cons by discriminate.
  rewrite collapse_word_app by assumption. f_equal.
  change (py " " ++ join (py " ") (w' :: ws'))
    with (" "%char :: join (py " ") (w' :: ws')).
  simpl collapse_from at 1. f_equal. apply IH.
Qed.

Lemma split_cons (c : ascii) (r : str) :
  split (c :: r) =
  if isspace c then split r
  else if starts_word r then
    match split r with
    | w :: ws => (c :: w) :: ws
    | [] => [[c]]
    end
  else [c] :: split r.
Proof. reflexivity. Qed.

Lemma split_word_sep (w rest : str) :
  word w -> split (w ++ " "%char :: rest) = w :: split rest.
Proof.
  intros [Hne Hw]. induction Hw as [| c w Hc Hw IH]; [congruence |].
  destruct w as [| d w'].
  - simpl. now rewrite Hc.
  - inversion Hw as [| ? ? Hd _]; subst.
    change ((c :: d :: w') ++ " "%char :: rest)
      with (c :: ((d :: w') ++ " "%char :: rest)).
    rewrite split_cons, Hc, IH by discriminate.
    simpl. now rewrite Hd.
Qed.

Lemma split_word (w : str) : word w -> split w = [w].
Proof.
  intros [Hne Hw]. induction Hw as [| c w Hc Hw IH]; [congruence |].
  destruct w as [| d w'].
  - simpl. now rewrite Hc.
  - inversion Hw as [| ? ? Hd _]; subst.
    rewrite split_cons, Hc, IH by discriminate.
    simpl. now rewrite Hd.
Qed.

Lemma split_join (ws : list str) :
  Forall word ws -> split (join (py " ") ws) = ws.
Proof.
  induction 1 as [| w ws Hw Hws IH]; [reflexivity |].
  destruct ws as [| w' ws']; [now apply split_word |].
  rewrite join_cons by discriminate.
  change (w ++ py " " ++ join (py " ") (w' :: ws'))
    with (w ++ " "%char :: join (py " ") (w' :: ws')).
  rewrite split_word_sep by assumption. now rewrite IH.
Qed.

(** ** Text cleaning *)

Example clean_ocr_text_sample :
  clean_ocr_text (py "  STOP   @ x  a 7 #sign! ") = py "STOP a 7 sign!".
Proof. vm_compute. reflexivity. Qed.

Example clean_ocr_text_only_noise : clean_ocr_text (py " # x ; ") = [].
Proof. vm_compute. reflexivity. Qed.

(** The words that survive cleaning are words without whitespace made
    of characters the first substitution keeps. *)
Lemma cleaned_words (x : str) :
  let ws := filter keep_word (split (normalize_whitespace (remove_special x))) in
  Forall word ws /\ Forall (Forall (fun c => allowed_char c = true)) ws.
Proof.
  intros ws. split.
  - apply Forall_forall. intros w Hw. apply filter_In in Hw as [Hw _].
    pose proof (split_words (normalize_whitespace (remove_special x))) as H.
    rewrite Forall_forall in H. now apply H.
  - apply Forall_forall. intros w Hw. apply filter_In in Hw as [Hw _].
    apply Forall_forall. intros c Hc.
    pose proof (split_chars _ _ _ Hw Hc) as Hin.
    apply collapse_chars in Hin as [Hin | ->]; [| exact allowed_space].
    now apply filter_In in Hin.
Qed.

(** Cleaning leaves a single-space join of kept words as it is. *)
Lemma clean_join (ws : list str) :
  Forall word ws ->
  Forall (Forall (fun c => allowed_char c = true)) ws ->
  filter keep_word ws = ws ->
  clean_ocr_text (join (py " ") ws) = join (py " ") ws.
Proof.
  intros Hw Ha Hk. unfold clean_ocr_text.
  destruct (truthy (join (py " ") ws)) eqn:Ht; cbn [negb]; cbv zeta.
  - unfold remove_special. rewrite (filter_id allowed_char).
    + unfold normalize_whitespace. rewrite collapse_join by assumption.
      rewrite split_join by assumption. rewrite Hk.
      now apply strip_join.
    + apply (join_chars (P := fun c => allowed_char c = true)).
      * exact allowed_space.
      * assumption.
  - apply truthy_false in Ht. now rewrite Ht.
Qed.

(** C8: cleaning is idempotent, [clean(clean(x)) == clean(x)] for every
    string [x]. *)
Theorem clean_ocr_text_idempotent (x : str) :
  clean_ocr_text (clean_ocr_text x) = clean_ocr_text x.
Proof.
  destruct (cleaned_words x) as [Hw Ha].
  unfold clean_ocr_text at 2 3.
  destruct (truthy x); cbn [negb]; cbv zeta; [| reflexivity].
  rewrite strip_join by assumption.
  apply clean_join; try assumption.
  apply filter_filter.
Qed.

(** ** Text detection *)

(** C9: the text detector returns the empty string or a cleaned string
    of at least [MIN_TEXT_LENGTH] (3) characters; the length test that
    follows the cleaning excludes a shorter non-empty result. *)
Theorem detect_text_empty_or_min_length {Frame} `{Capabilities Frame} (frame : Frame) :
  detect_text frame = []
  \/ (MIN_TEXT_LENGTH <= len (detect_text frame)
      /\ exists full_text, detect_text frame = clean_ocr_text full_text).
Proof.
  unfold detect_text.
  destruct ocr_reader as [readtext |]; [| now left].
  destruct (readtext frame) as [| results]; [now left |].
  destruct results as [| r results]; [now left |].
  destruct (sorted_results (r :: results)) as [| results_sorted]; [now left |].
  destruct (collect_texts results_sorted) as [| t ts]; [now left |].
  destruct (Nat.leb_spec MIN_TEXT_LENGTH
              (len (clean_ocr_text (join (py " ") (t :: ts)))));
    [right | now left].
  split; [assumption | eexists; reflexivity].
Qed.

(** ** Stability filter *)

Example stability_stop_stop :
  fst (check_text_stability (py "STOP") (buffer_after [py "STOP"])) = py "STOP".
Proof. reflexivity. Qed.

Example stability_first_call :
  fst (check_text_stability (py "STOP") (buffer_after [])) = [].
Proof. reflexivity. Qed.

Example stability_all_empty :
  fst (check_text_stability [] (buffer_after [[]; []])) = [].
Proof. reflexivity. Qed.

Example stability_differs :
  fst (check_text_stability (py "STOP") (buffer_after [py "STOP"; py "SHOP"])) = [].
Proof. reflexivity. Qed.

(** The buffer left by one call on a window of the last observations. *)
Lemma check_text_stability_window (observations : list str) (t : str) :
  snd (check_text_stability t (last_n OCR_STABILITY_FRAMES observations))
  = last_n OCR_STABILITY_FRAMES (observations ++ [t]).
Proof.
  unfold last_n. rewrite rev_app_distr.
  destruct (rev observations) as [| a [| b o]]; cbn.
  - reflexivity.
  - destruct (truthy a), (eqb t a); reflexivity.
  - destruct (truthy a), (eqb t a); reflexivity.
Qed.

Lemma buffer_after_last_n (observations : list str) :
  buffer_after observations = last_n OCR_STABILITY_FRAMES observations.
Proof.
  induction observations as [| t observations IH] using rev_ind; [reflexivity |].
  unfold buffer_after in *. rewrite fold_left_app. cbn [fold_left].
  rewrite IH. apply check_text_stability_window.
Qed.

(** C3: for every sequence of observations followed by [t], the call
    for [t] leaves the window of the last two observations and returns
    [t] exactly when that window is full, all its entries equal the
    first one and that one is non-empty; otherwise it returns the empty
    string. *)
Theorem check_text_stability_returns_iff_stable (observations : list str) (t : str) :
  let r := check_text_stability t (buffer_after observations) in
  snd r = last_n OCR_STABILITY_FRAMES (observations ++ [t])
  /\ fst r = if window_stable OCR_STABILITY_FRAMES (snd r) then t else [].
Proof.
  cbv zeta. rewrite buffer_after_last_n. split.
  - apply check_text_stability_window.
  - unfold last_n.
    destruct (rev observations) as [| a [| b o]]; cbn.
    + reflexivity.
    + destruct a as [| c a]; cbn [truthy negb]; [now destruct t |].
      destruct (eqb t (c :: a)) eqn:E; cbn.
      * rewrite Ascii.eqb_refl, eqb_refl, E. apply eqb_eq in E. now subst.
      * rewrite Ascii.eqb_refl, eqb_refl, E. reflexivity.
    + destruct a as [| c a]; cbn [truthy negb]; [now destruct t |].
      destruct (eqb t (c :: a)) eqn:E; cbn.
      * rewrite Ascii.eqb_refl, eqb_refl, E. apply eqb_eq in E. now subst.
      * rewrite Ascii.eqb_refl, eqb_refl, E. reflexivity.
Qed.

(** ** Speech queue *)

Lemma drain_empty (q : list str) : drain q = [].
Proof. induction q; simpl; auto. Qed.

Example speak_two_chars_dropped :
  speak TTSEngine_init (py "ab") = TTSEngine_init.
Proof. reflexivity. Qed.

Example speak_padded_dropped :
  speak TTSEngine_init (py " ab  ") = TTSEngine_init.
Proof. reflexivity. Qed.

(** C10: [speak] inserts [text] exactly when it is non-empty and its
    stripped length exceeds 2, the queue then holding [text] alone;
    otherwise the engine, and so its queue, is unchanged. *)
Theorem speak_inserts_iff_long_enough (t : TTSEngine) (text : str) :
  speak t text =
  if truthy text && (2 <? len (strip text))
  then {| tts_running := tts_running t; speech_queue := [text];
          last_spoken := last_spoken t |}
  else t.
Proof.
  unfold speak, long_enough.
  destruct (truthy text && (2 <? len (strip text))); [| reflexivity].
  unfold queue_put. now rewrite drain_empty.
Qed.

(** C4: enqueuing [A] and then [B], both passing the length filter,
    leaves exactly one pending entry, [B]. *)
Theorem speak_last_write_wins (t : TTSEngine) (A B : str) :
  long_enough A = true -> long_enough B = true ->
  speech_queue (speak (speak t A) B) = [B].
Proof.
  intros HA HB. unfold speak. rewrite HA, HB. cbn [speech_queue].
  unfold queue_put. now rewrite drain_empty.
Qed.

Lemma speak_last_write_wins_witness :
  long_enough (py "STOP") = true /\ long_enough (py "a red car") = true
  /\ speech_queue (speak (speak TTSEngine_init (py "STOP")) (py "a red car"))
     = [py "a red car"].
Proof.
  split; [reflexivity | split; [reflexivity |]].
  apply (speak_last_write_wins TTSEngine_init (py "STOP") (py "a red car"));
    reflexivity.
Defined.

(** ** Frame queue *)

Example camera_enqueue_free_slot :
  camera_enqueue {| maxsize := 2; items := [1] |} 2
  = Some {| maxsize := 2; items := [1; 2] |}.
Proof. reflexivity. Qed.

Lemma camera_enqueue_never_blocks {Frame} (q : FrameQueue Frame) (frame : Frame) :
  camera_enqueue q frame <> None.
Proof.
  unfold camera_enqueue, put. destruct (full q); cbn; discriminate.
Qed.

(** C2 as stated fails: the capture step leaves a full queue as it is,
    where drop-oldest would have replaced frame 1 by frame 3. *)
Lemma camera_enqueue_not_drop_oldest :
  full {| maxsize := 2; items := [1; 2] |} = true
  /\ camera_enqueue {| maxsize := 2; items := [1; 2] |} 3
     <> Some (drop_oldest_put {| maxsize := 2; items := [1; 2] |} 3).
Proof. split; [reflexivity | discriminate]. Qed.

(** C2, amended: on a full frame queue the capture step does not block
    and drops the newly captured frame, leaving the queue unchanged. *)
Theorem camera_enqueue_full_drops_new {Frame} (q : FrameQueue Frame) (frame : Frame) :
  full q = true -> camera_enqueue q frame = Some q.
Proof. intros Hfull. unfold camera_enqueue. now rewrite Hfull. Qed.

Lemma camera_enqueue_full_drops_new_witness :
  full {| maxsize := 2; items := [1; 2] |} = true
  /\ camera_enqueue {| maxsize := 2; items := [1; 2] |} 3
     = Some {| maxsize := 2; items := [1; 2] |}.
Proof.
  split; [reflexivity |].
  apply (camera_enqueue_full_drops_new {| maxsize := 2; items := [1; 2] |} 3).
  reflexivity.
Defined.

(** ** Priority arbitration *)

Section Arbiter.

Context {Frame : Type} `{Capabilities Frame}.

(** A cycle with stable text: no call of [detect_objects], one call of
    [speak] when the text is new. *)
Lemma detection_cycle_text (frame : Frame) (g : Globals) :
  truthy (stable_text_of frame g) = true ->
  let r := detection_cycle frame g in
  let g' := globals_after r in
  let stable_text := stable_text_of frame g in
  let fresh := negb (eqb stable_text (last_spoken_text g)) in
  events_of r = (if fresh then [CallSpeak stable_text] else [])
  /\ ocr_mode_active g' = true
  /\ last_spoken_text g' = stable_text
  /\ tts g' = (if fresh then speak (tts g) stable_text else tts g)
  /\ current_audio g' = (if fresh then stable_text else current_audio g).
Proof.
  unfold stable_text_of, detection_cycle, bind, call_check_text_stability.
  destruct (check_text_stability (detect_text frame) (ocr_text_buffer g))
    as [stable_text buffer].
  cbn [fst]. intros Hs. cbn. rewrite Hs. cbn.
  destruct (eqb stable_text (last_spoken_text g)) eqn:E; cbn.
  - apply eqb_eq in E. repeat split; congruence.
  - repeat split; reflexivity.
Qed.

(** A cycle without stable text: [detect_objects] is called once, after
    the mode flag and, on leaving OCR mode, the last-spoken string are
    cleared; [speak] is called when the caption is non-empty and new. *)
Lemma detection_cycle_objects (frame : Frame) (g : Globals) :
  truthy (stable_text_of frame g) = false ->
  let r := detection_cycle frame g in
  let g' := globals_after r in
  let caption := detect_objects frame in
  let fresh := truthy caption && negb (eqb caption (last_after_exit g)) in
  (exists at_call,
      events_of r =
        CallDetectObjects at_call :: (if fresh then [CallSpeak caption] else [])
      /\ ocr_mode_active at_call = false
      /\ last_spoken_text at_call = last_after_exit g)
  /\ ocr_mode_active g' = false
  /\ last_spoken_text g' = (if fresh then caption else last_after_exit g)
  /\ tts g' = (if fresh then speak (tts g) caption else tts g)
  /\ current_audio g' = (if fresh then caption else current_audio g).
Proof.
  unfold stable_text_of, detection_cycle, bind, call_check_text_stability,
    last_after_exit.
  destruct (check_text_stability (detect_text frame) (ocr_text_buffer g))
    as [stable_text buffer].
  cbn [fst]. intros Hs. cbn. rewrite Hs. cbn.
  destruct (ocr_mode_active g) eqn:Hm; cbn.
  - destruct (truthy (detect_objects frame) && negb (eqb (detect_objects frame) []));
      cbn; (split; [eexists; repeat split; reflexivity | repeat split; reflexivity]).
  - destruct (truthy (detect_objects frame)
              && negb (eqb (detect_objects frame) (last_spoken_text g)));
      cbn; (split; [eexists; repeat split; try reflexivity; assumption
                   | repeat split; try reflexivity; assumption]).
Qed.

Lemma events_of_bind {A B} (c : M A) (k : A -> M B) (g : Globals) :
  events_of (bind c k g)
  = events_of (c g) ++ events_of (k (fst (fst (c g))) (globals_after (c g))).
Proof.
  unfold bind, events_of, globals_after.
  destruct (c g) as [[a g1] l1]. cbn.
  destruct (k a g1) as [[b g2] l2]. reflexivity.
Qed.

Lemma detection_cycle_object_mode (frame : Frame) (g : Globals) :
  Forall called_in_object_mode (events_of (detection_cycle frame g)).
Proof.
  destruct (truthy (stable_text_of frame g)) eqn:Hs.
  - destruct (detection_cycle_text frame g Hs) as (-> & _).
    destruct (negb _); repeat constructor.
  - destruct (detection_cycle_objects frame g Hs) as ((at_call & -> & Hm & _) & _).
    constructor; [exact Hm |].
    destruct (_ && _); repeat constructor.
Qed.

(** C5: in every run of detection cycles each call of [detect_objects]
    finds the mode flag off; a cycle with stable text sets the flag and
    makes no such call, and a cycle without stable text makes its one
    call after the flag is cleared. *)
Theorem detect_objects_never_in_ocr_mode (frames : list Frame) (frame : Frame)
    (g : Globals) :
  Forall called_in_object_mode (events_of (detection_worker frames g))
  /\ (if truthy (stable_text_of frame g)
      then ocr_mode_active (globals_after (detection_cycle frame g)) = true
           /\ filter is_detect_objects (events_of (detection_cycle frame g)) = []
      else exists at_call,
           filter is_detect_objects (events_of (detection_cycle frame g))
           = [CallDetectObjects at_call]
           /\ ocr_mode_active at_call = false).
Proof.
  split.
  - revert g. induction frames as [| f rest IH]; intros g; [constructor |].
    cbn [detection_worker]. rewrite events_of_bind.
    apply Forall_app. split; [apply detection_cycle_object_mode | apply IH].
  - destruct (truthy (stable_text_of frame g)) eqn:Hs.
    + destruct (detection_cycle_text frame g Hs) as (-> & Hm & _).
      split; [exact Hm |]. now destruct (negb _).
    + destruct (detection_cycle_objects frame g Hs) as ((at_call & -> & Hm & _) & _).
      exists at_call. split; [| exact Hm].
      now destruct (_ && _).
Qed.

(** C6: a cycle without stable text that starts with the mode flag set
    clears the flag and empties the last-spoken string before
    [detect_objects] is called, so that the caption of this cycle, when
    non-empty, is recorded and passed to [speak] whatever was spoken
    before. *)
Theorem mode_exit_resets_last_spoken (frame : Frame) (g : Globals) :
  ocr_mode_active g = true ->
  truthy (stable_text_of frame g) = false ->
  let r := detection_cycle frame g in
  let g' := globals_after r in
  let caption := detect_objects frame in
  ocr_mode_active g' = false
  /\ (exists at_call,
        events_of r =
          CallDetectObjects at_call
          :: (if truthy caption then [CallSpeak caption] else [])
        /\ ocr_mode_active at_call = false
        /\ last_spoken_text at_call = [])
  /\ last_spoken_text g' = caption
  /\ tts g' = (if truthy caption then speak (tts g) caption else tts g)
  /\ current_audio g' = (if truthy caption then caption else current_audio g).
Proof.
  intros Hm Hs.
  pose proof (detection_cycle_objects frame g Hs) as Hc.
  cbv zeta in *. unfold last_after_exit in Hc. rewrite Hm in Hc.
  assert (Hf : truthy (detect_objects frame)
               && negb (eqb (detect_objects frame) [])
               = truthy (detect_objects frame))
    by (destruct (detect_objects frame); reflexivity).
  rewrite Hf in Hc.
  destruct Hc as (Hev & Hm' & Hl & Ht & Ha).
  repeat split; try assumption.
  rewrite Hl. destruct (detect_objects frame); reflexivity.
Qed.

(** C7: when two consecutive cycles obtain the same stable text, or
    both obtain no stable text and the same non-empty caption, the
    second cycle makes no call of [speak] and leaves the speech engine
    as the first cycle left it. *)
Theorem same_content_twice_speaks_once (f1 f2 : Frame) (g : Globals) :
  let g1 := globals_after (detection_cycle f1 g) in
  let r2 := detection_cycle f2 g1 in
  (truthy (stable_text_of f1 g) = true
   /\ stable_text_of f2 g1 = stable_text_of f1 g)
  \/ (truthy (stable_text_of f1 g) = false
      /\ truthy (stable_text_of f2 g1) = false
      /\ truthy (detect_objects f1) = true
      /\ detect_objects f2 = detect_objects f1) ->
  filter is_speak (events_of r2) = []
  /\ tts (globals_after r2) = tts g1.
Proof.
  cbv zeta. intros [[Hs1 Hs2] | (Hs1 & Hs2 & Hc1 & Hc2)].
  - destruct (detection_cycle_text f1 g Hs1) as (_ & _ & Hl1 & _).
    assert (Hs2' : truthy (stable_text_of f2 (globals_after (detection_cycle f1 g))) = true)
      by now rewrite Hs2.
    destruct (detection_cycle_text f2 _ Hs2') as (Hev & _ & _ & Ht & _).
    rewrite Hev, Ht, Hl1, Hs2, eqb_refl. split; reflexivity.
  - destruct (detection_cycle_objects f1 g Hs1) as (_ & Hm1 & Hl1 & _).
    destruct (detection_cycle_objects f2 _ Hs2) as ((at_call & Hev & _) & _ & _ & Ht & _).
    assert (Hlast : last_after_exit (globals_after (detection_cycle f1 g))
                    = detect_objects f1).
    { unfold last_after_exit. rewrite Hm1, Hl1, Hc1. cbn [andb].
      destruct (eqb (detect_objects f1) (last_after_exit g)) eqn:E; cbn [negb].
      - apply eqb_eq in E. now symmetry.
      - reflexivity. }
    rewrite Hev, Ht, Hlast, Hc2, eqb_refl, andb_false_r. split; reflexivity.
Qed.

End Arbiter.

(** ** Runs on the sample frames *)

Example scenario_stop_stop :
  events_of (detection_worker [frame_stop; frame_stop]
               (set_last_spoken_text (py "a red car") Globals_init))
  = [CallDetectObjects
       (set_current_text (py "STOP")
          (set_ocr_text_buffer [py "STOP"]
             (set_last_spoken_text (py "a red car") Globals_init)));
     CallSpeak (py "STOP")].
Proof. vm_compute. reflexivity. Qed.

Example scenario_no_text_then_caption :
  filter is_speak (events_of (detection_worker [frame_car; frame_car] Globals_init))
  = [CallSpeak (py "a red car")].
Proof. vm_compute. reflexivity. Qed.

Example scenario_caption_again_after_text :
  filter is_speak
    (events_of (detection_worker [frame_car; frame_stop; frame_stop; frame_car]
                  Globals_init))
  = [CallSpeak (py "a red car"); CallSpeak (py "STOP"); CallSpeak (py "a red car")].
Proof. vm_compute. reflexivity. Qed.

Lemma mode_exit_resets_last_spoken_witness :
  ocr_mode_active state_reading_stop = true
  /\ truthy (stable_text_of frame_car state_reading_stop) = false
  /\ last_spoken_text (globals_after (detection_cycle frame_car state_reading_stop))
     = py "a red car"
  /\ speech_queue (tts (globals_after (detection_cycle frame_car state_reading_stop)))
     = [py "a red car"].
Proof.
  split; [reflexivity | split; [reflexivity |]].
  destruct (mode_exit_resets_last_spoken frame_car state_reading_stop)
    as (_ & _ & Hl & Ht & _); [reflexivity | reflexivity |].
  split; [exact Hl |]. rewrite Ht. reflexivity.
Defined.

Lemma same_content_twice_speaks_once_witness :
  (truthy (stable_text_of frame_stop
             (globals_after (detection_cycle frame_stop Globals_init))) = true
   /\ filter is_speak
        (events_of
           (detection_cycle frame_stop
              (globals_after
                 (detection_cycle frame_stop
                    (globals_after (detection_cycle frame_stop Globals_init))))))
      = [])
  /\ (truthy (detect_objects frame_car) = true
      /\ filter is_speak
           (events_of
              (detection_cycle frame_car
                 (globals_after (detection_cycle frame_car Globals_init))))
         = []).
Proof.
  split.
  - split; [reflexivity |].
    apply (same_content_twice_speaks_once frame_stop frame_stop
             (globals_after (detection_cycle frame_stop Globals_init))).
    left. split; reflexivity.
  - split; [reflexivity |].
    apply (same_content_twice_speaks_once frame_car frame_car Globals_init).
    right. repeat split; reflexivity.
Defined.

(** A two-character caption is recorded and displayed by the cycle
    although [speak] drops it. *)
Example short_caption_recorded_not_queued :
  last_spoken_text (globals_after (detection_cycle frame_short_caption Globals_init))
  = py "tv"
  /\ current_audio (globals_after (detection_cycle frame_short_caption Globals_init))
     = py "tv"
  /\ events_of (detection_cycle frame_short_caption Globals_init)
     = [CallDetectObjects
          (set_current_text (py "No text detected")
             (set_ocr_text_buffer [[]] Globals_init));
        CallSpeak (py "tv")]
  /\ speech_queue (tts (globals_after (detection_cycle frame_short_caption Globals_init)))
     = [].
Proof. vm_compute. repeat split; reflexivity. Qed.

(** ** Speech worker *)

Example speech_worker_truncates_caption :
  snd (speech_worker_step true (speak TTSEngine_init sixteen_words))
  = Some fifteen_words.
Proof. vm_compute. reflexivity. Qed.


(** * Further properties of the code *)

(** ** Cleaned text *)

(** The cleaned text as the single-space join of its kept words. *)
Lemma clean_ocr_text_join (x : str) :
  truthy x = true ->
  clean_ocr_text x
  = join (py " ")
      (filter keep_word (split (normalize_whitespace (remove_special x)))).
Proof.
  intros Hx. destruct (cleaned_words x) as [Hw _].
  unfold clean_ocr_text. rewrite Hx. cbn [negb]. cbv zeta.
  now apply strip_join.
Qed.

Lemma allowed_not_space (c : ascii) :
  allowed_char c = true -> isspace c = false -> output_char c = true.
Proof.
  unfold allowed_char, output_char. intros Ha Hs. rewrite Hs in Ha.
  destruct (isword c); [reflexivity |].
  cbn [orb] in *. now rewrite Ha.
Qed.

(** X1: a cleaned text holds only word characters, the punctuation
    [. , ! ? ' -] and plain spaces; tabs, line breaks and other
    characters do not survive. *)
Theorem clean_ocr_text_chars (x : str) :
  Forall (fun c => output_char c = true) (clean_ocr_text x).
Proof.
  destruct (truthy x) eqn:Hx.
  - rewrite clean_ocr_text_join by assumption.
    destruct (cleaned_words x) as [Hw Ha]. cbv zeta in *.
    apply (join_chars (P := fun c => output_char c = true)); [reflexivity |].
    rewrite Forall_forall in *. intros w Hin.
    specialize (Hw w Hin). specialize (Ha w Hin). destruct Hw as [_ Hw].
    rewrite Forall_forall in *. intros c Hc.
    apply allowed_not_space; auto.
  - apply truthy_false in Hx. subst. constructor.
Qed.

(** X2: a cleaned text is its own words joined by single spaces, so it
    has no leading, trailing or doubled whitespace, and each of its
    words has two characters or more, or is [a], [i] or a digit. *)
Theorem clean_ocr_text_words (x : str) :
  join (py " ") (split (clean_ocr_text x)) = clean_ocr_text x
  /\ Forall (fun w => keep_word w = true) (split (clean_ocr_text x)).
Proof.
  destruct (truthy x) eqn:Hx.
  - rewrite clean_ocr_text_join by assumption.
    destruct (cleaned_words x) as [Hw _]. cbv zeta in Hw.
    rewrite split_join by assumption. split; [reflexivity |].
    apply Forall_forall. intros w Hin. now apply filter_In in Hin.
  - apply truthy_false in Hx. subst. split; [reflexivity | constructor].
Qed.

Lemma collapse_length (b : bool) (s : str) :
  List.length (collapse_from b s) <= List.length s.
Proof.
  revert b. induction s as [| c r IH]; intros b; simpl; [lia |].
  destruct (isspace c); [destruct b |]; simpl;
    [specialize (IH true) | specialize (IH true) | specialize (IH false)]; lia.
Qed.

Lemma join_length_cons (w : str) (ws : list str) :
  List.length (join (py " ") (w :: ws))
  = List.length w
    + match ws with [] => 0 | _ => S (List.length (join (py " ") ws)) end.
Proof.
  destruct ws as [| w' ws']; [simpl; lia |].
  rewrite join_cons by discriminate. now rewrite !length_app.
Qed.

Lemma split_join_length_gap (s : str) :
  List.length (join (py " ") (split s)) <= List.length s
  /\ (starts_word s = false -> split s <> [] ->
      S (List.length (join (py " ") (split s))) <= List.length s).
Proof.
  induction s as [| c r [IH1 IH2]]; [cbn; split; [lia | congruence] |].
  rewrite split_cons. cbn [List.length starts_word].
  destruct (isspace c); cbn [negb].
  - split; [lia | intros _ _; lia].
  - split; [| discriminate].
    destruct (starts_word r) eqn:Hr.
    + destruct (split r) as [| w ws] eqn:E.
      * cbn. lia.
      * rewrite join_length_cons in *. cbn [List.length]. lia.
    + rewrite join_length_cons. cbn [List.length].
      destruct (split r) as [| w ws] eqn:E; [lia |].
      specialize (IH2 eq_refl). assert (w :: ws <> []) by discriminate.
      specialize (IH2 H). lia.
Qed.

Lemma split_join_length (s : str) :
  List.length (join (py " ") (split s)) <= List.length s.
Proof. apply split_join_length_gap. Qed.

Lemma join_length_tail (w : str) (ws : list str) :
  List.length (join (py " ") ws) <= List.length (join (py " ") (w :: ws)).
Proof. rewrite join_length_cons. destruct ws; [cbn |]; lia. Qed.

Lemma join_filter_length (f : str -> bool) (ws : list str) :
  List.length (join (py " ") (filter f ws)) <= List.length (join (py " ") ws).
Proof.
  induction ws as [| w ws IH]; [cbn; lia |].
  cbn [filter]. destruct (f w).
  - rewrite !join_length_cons.
    destruct (filter f ws) eqn:E; destruct ws; try lia.
    discriminate E.
  - pose proof (join_length_tail w ws). lia.
Qed.

(** X3: cleaning never lengthens a text. *)
Theorem clean_ocr_text_length (x : str) : len (clean_ocr_text x) <= len x.
Proof.
  unfold len. destruct (truthy x) eqn:Hx.
  - rewrite clean_ocr_text_join by assumption.
    etransitivity; [apply join_filter_length |].
    etransitivity; [apply split_join_length |].
    unfold normalize_whitespace.
    etransitivity; [apply collapse_length |].
    unfold remove_special. apply filter_length_le.
  - apply truthy_false in Hx. subst. simpl. lia.
Qed.

(** ** Reading order and filtering in text detection *)

Lemma key_lt_asym (a b : Z * Z) : key_lt a b = true -> key_lt b a = false.
Proof.
  unfold key_lt. destruct a as [ya xa], b as [yb xb]. cbn [fst snd].
  destruct (Z.ltb_spec ya yb), (Z.ltb_spec yb ya), (Z.eqb_spec ya yb),
    (Z.eqb_spec yb ya), (Z.ltb_spec xa xb), (Z.ltb_spec xb xa);
    cbn; intros; try reflexivity; try discriminate; lia.
Qed.

Lemma key_le_trans (a b c : Z * Z) : key_le a b -> key_le b c -> key_le a c.
Proof.
  unfold key_le, key_lt. destruct a as [ya xa], b as [yb xb], c as [yc xc].
  cbn [fst snd].
  destruct (Z.ltb_spec yb ya), (Z.eqb_spec yb ya), (Z.ltb_spec xb xa),
    (Z.ltb_spec yc yb), (Z.eqb_spec yc yb), (Z.ltb_spec xc xb),
    (Z.ltb_spec yc ya), (Z.eqb_spec yc ya), (Z.ltb_spec xc xa);
    cbn; intros; try reflexivity; try discriminate; lia.
Qed.

Lemma insert_by_key_perm (kr : (Z * Z) * OcrResult) (l : list ((Z * Z) * OcrResult)) :
  Permutation (kr :: l) (insert_by_key kr l).
Proof.
  induction l as [| kr' l IH]; cbn; [reflexivity |].
  destruct (key_lt (fst kr') (fst kr)); [| reflexivity].
  rewrite perm_swap. now constructor.
Qed.

Lemma insertion_perm (krs : list ((Z * Z) * OcrResult)) :
  Permutation krs (fold_right insert_by_key [] krs).
Proof.
  induction krs as [| kr krs IH]; cbn; [constructor |].
  rewrite <- insert_by_key_perm. now constructor.
Qed.

Lemma insert_by_key_sorted (kr : (Z * Z) * OcrResult) (l : list ((Z * Z) * OcrResult)) :
  Sorted keyed_le l -> Sorted keyed_le (insert_by_key kr l).
Proof.
  induction 1 as [| kr' l Hs IH Hd]; cbn; [repeat constructor |].
  destruct (key_lt (fst kr') (fst kr)) eqn:E.
  - constructor; [exact IH |].
    destruct l as [| kr'' l']; cbn.
    + constructor. now apply key_lt_asym.
    + destruct (key_lt (fst kr'') (fst kr)).
      * inversion Hd; subst. now constructor.
      * constructor. now apply key_lt_asym.
  - constructor; [now constructor | constructor; exact E].
Qed.

Lemma insertion_sorted (krs : list ((Z * Z) * OcrResult)) :
  StronglySorted keyed_le (fold_right insert_by_key [] krs).
Proof.
  apply Sorted_StronglySorted.
  - intros a b c. apply key_le_trans.
  - induction krs as [| kr krs IH]; cbn; [constructor |].
    now apply insert_by_key_sorted.
Qed.

Lemma with_keys_returned (rs : list OcrResult) (krs : list ((Z * Z) * OcrResult)) :
  with_keys rs = Returned krs ->
  map snd krs = rs
  /\ Forall (fun kr => sort_key (snd kr) = Returned (fst kr)) krs.
Proof.
  revert krs. induction rs as [| r rs IH]; cbn; intros krs E.
  - injection E as <-. split; [reflexivity | constructor].
  - destruct (sort_key r) as [| k] eqn:Hk; [discriminate |].
    destruct (with_keys rs) as [| krs']; [discriminate |].
    injection E as <-. destruct (IH krs' eq_refl) as [Hm Hf].
    cbn. split; [now rewrite Hm | constructor; assumption].
Qed.

Lemma keyed_sorted_map (l : list ((Z * Z) * OcrResult)) :
  StronglySorted keyed_le l ->
  Forall (fun kr => sort_key (snd kr) = Returned (fst kr)) l ->
  StronglySorted
    (fun a b => forall ka kb,
         sort_key a = Returned ka -> sort_key b = Returned kb -> key_le ka kb)
    (map snd l).
Proof.
  induction 1 as [| kr l Hs IH Hall]; intros Hf; cbn; [constructor |].
  inversion Hf as [| ? ? Hk Hf']; subst.
  constructor; [now apply IH |].
  rewrite Forall_forall in *. intros b Hb ka kb Ha Hkb.
  apply in_map_iff in Hb as (kr' & <- & Hin).
  specialize (Hall kr' Hin). specialize (Hf' kr' Hin).
  rewrite Hk in Ha. rewrite Hf' in Hkb.
  injection Ha as <-. injection Hkb as <-. exact Hall.
Qed.

Lemma sorted_results_perm (rs l : list OcrResult) :
  sorted_results rs = Returned l -> Permutation rs l.
Proof.
  unfold sorted_results. destruct (with_keys rs) as [| krs] eqn:E; [discriminate |].
  intros H. injection H as <-.
  destruct (with_keys_returned rs E) as [Hm _].
  rewrite <- Hm. apply Permutation_map. apply insertion_perm.
Qed.

(** X4: when [sorted] returns, its result holds the same entries as the
    OCR result, ordered top to bottom and, at equal height, left to
    right by the first corner of their boxes. *)
Theorem sorted_results_reading_order (rs l : list OcrResult) :
  sorted_results rs = Returned l ->
  Permutation rs l
  /\ StronglySorted
       (fun a b => forall ka kb,
            sort_key a = Returned ka -> sort_key b = Returned kb -> key_le ka kb)
       l.
Proof.
  unfold sorted_results. destruct (with_keys rs) as [| krs] eqn:E; [discriminate |].
  intros H. injection H as <-.
  destruct (with_keys_returned rs E) as [Hm Hf].
  pose proof (insertion_perm krs) as Hp.
  split.
  - rewrite <- Hm. now apply Permutation_map.
  - apply keyed_sorted_map.
    + apply insertion_sorted.
    + exact (Permutation_Forall Hp Hf).
Qed.

Lemma sorted_results_reading_order_witness :
  sorted_results sample_results = Returned (rev sample_results)
  /\ Permutation sample_results (rev sample_results).
Proof.
  split; [reflexivity |].
  destruct (sorted_results_reading_order sample_results (l := rev sample_results))
    as [Hp _]; [reflexivity | exact Hp].
Defined.

Lemma collect_texts_filtered_out (l : list OcrResult) :
  Forall (fun r => filtered_out r = true) l -> collect_texts l = [].
Proof.
  induction 1 as [| r l Hr _ IH]; [reflexivity |].
  cbn [collect_texts]. unfold filtered_out in Hr.
  destruct (PrimFloat.ltb OCR_CONFIDENCE_THRESHOLD (confidence r));
    cbn [negb orb andb] in *; [| exact IH].
  apply Nat.ltb_lt in Hr.
  destruct (Nat.leb_spec MIN_TEXT_LENGTH (len (strip (text r)))); [lia | exact IH].
Qed.

(** X5: when every region the reader returns has a confidence not
    above the threshold or a stripped text shorter than
    [MIN_TEXT_LENGTH], no text is detected. *)
Theorem detect_text_all_filtered_out {Frame} `{Capabilities Frame} (frame : Frame) :
  (forall readtext rs,
      ocr_reader = Some readtext -> readtext frame = Returned rs ->
      Forall (fun r => filtered_out r = true) rs) ->
  detect_text frame = [].
Proof.
  intros Hall. unfold detect_text.
  destruct ocr_reader as [readtext |]; [| reflexivity].
  destruct (readtext frame) as [| rs] eqn:Hr; [reflexivity |].
  specialize (Hall readtext rs eq_refl Hr).
  destruct rs as [| r rs]; [reflexivity |].
  destruct (sorted_results (r :: rs)) as [| l] eqn:Hs; [reflexivity |].
  pose proof (sorted_results_perm _ Hs) as Hp.
  rewrite (collect_texts_filtered_out (Permutation_Forall Hp Hall)).
  reflexivity.
Qed.

Lemma detect_text_all_filtered_out_witness : detect_text frame_blurry = [].
Proof.
  apply (detect_text_all_filtered_out (frame := frame_blurry)).
  intros readtext rs Hreader Hread.
  injection Hreader as <-. cbn in Hread. injection Hread as <-.
  repeat constructor.
Defined.

(** ** Captions *)

Lemma lstrip_lstrip (s : str) : lstrip (lstrip s) = lstrip s.
Proof.
  induction s as [| c r IH]; [reflexivity |].
  cbn [lstrip]. destruct (isspace c) eqn:Hc; [exact IH |].
  cbn [lstrip]. now rewrite Hc.
Qed.

Lemma lstrip_snoc (s : str) (c : ascii) :
  isspace c = false -> lstrip (s ++ [c]) = lstrip s ++ [c].
Proof.
  intros Hc. induction s as [| d r IH]; cbn; [now rewrite Hc |].
  destruct (isspace d); [exact IH | reflexivity].
Qed.

Lemma rstrip_cons (c : ascii) (s : str) :
  isspace c = false -> rstrip (c :: s) = c :: rstrip s.
Proof.
  intros Hc. unfold rstrip. cbn [rev].
  rewrite lstrip_snoc by assumption.
  rewrite rev_app_distr. reflexivity.
Qed.

Lemma rstrip_rstrip (s : str) : rstrip (rstrip s) = rstrip s.
Proof. unfold rstrip. now rewrite rev_involutive, lstrip_lstrip. Qed.

Lemma lstrip_rstrip_lstrip (s : str) : lstrip (rstrip (lstrip s)) = rstrip (lstrip s).
Proof.
  induction s as [| c r IH]; [reflexivity |].
  cbn [lstrip]. destruct (isspace c) eqn:Hc; [exact IH |].
  rewrite rstrip_cons by assumption. cbn [lstrip]. now rewrite Hc.
Qed.

Lemma strip_strip (s : str) : strip (strip s) = strip s.
Proof.
  unfold strip. now rewrite lstrip_rstrip_lstrip, rstrip_rstrip.
Qed.

(** X6: the caption [detect_objects] returns has no leading or trailing
    whitespace, whatever the model produced: stripping it again changes
    nothing, so [speak] accepts it exactly when it has more than two
    characters. *)
Theorem detect_objects_stripped {Frame} `{Capabilities Frame} (frame : Frame) :
  strip (detect_objects frame) = detect_objects frame
  /\ long_enough (detect_objects frame) = (2 <? len (detect_objects frame)).
Proof.
  assert (Hs : strip (detect_objects frame) = detect_objects frame).
  { unfold detect_objects. destruct vl_model as [generate |]; [| reflexivity].
    destruct (generate frame); [reflexivity | apply strip_strip]. }
  split; [exact Hs |].
  unfold long_enough. rewrite Hs.
  destruct (detect_objects frame); reflexivity.
Qed.

(** ** The stability window *)

(** X7: the stability buffer never grows beyond [OCR_STABILITY_FRAMES]
    entries: after any sequence of observations it holds as many
    entries as were observed, up to two. *)
Theorem buffer_after_length (observations : list str) :
  List.length (buffer_after observations)
  = Nat.min OCR_STABILITY_FRAMES (List.length observations).
Proof.
  rewrite buffer_after_last_n. unfold last_n.
  rewrite length_rev, length_firstn, length_rev. reflexivity.
Qed.

(** ** The speech worker *)

Lemma Forall_first_n {A} (P : A -> Prop) (n : nat) (l : list A) :
  Forall P l -> Forall P (firstn n l).
Proof.
  intros H. revert n. induction H as [| x l Hx _ IH]; intros [| n]; cbn;
    constructor; auto.
Qed.

Lemma capped_word_count (text : str) :
  List.length (split (capped text)) <= MAX_AUDIO_LENGTH.
Proof.
  unfold capped.
  destruct (Nat.ltb_spec MAX_AUDIO_LENGTH (List.length (split text))) as [Hlt | Hle];
    [| exact Hle].
  rewrite split_join.
  - rewrite length_firstn. lia.
  - apply Forall_first_n. apply split_words.
Qed.

Lemma capped_short (text : str) :
  List.length (split text) <= MAX_AUDIO_LENGTH -> capped text = text.
Proof.
  intros Hle. unfold capped.
  destruct (Nat.ltb_spec MAX_AUDIO_LENGTH (List.length (split text))); [lia | reflexivity].
Qed.

Lemma capped_long (text : str) :
  MAX_AUDIO_LENGTH < List.length (split text) -> capped text <> text.
Proof.
  intros Hlt E. pose proof (capped_word_count text) as Hc.
  rewrite E in Hc. lia.
Qed.

(** What a pass does with the text at the head of the queue. *)
Lemma speech_worker_step_head (speak_ok : bool) (t : TTSEngine) (text : str)
    (q : list str) :
  speech_queue t = text :: q ->
  speech_worker_step speak_ok t
  = if negb (truthy text) || (len (strip text) <? 2) || eqb text (last_spoken t)
    then ({| tts_running := tts_running t; speech_queue := q;
             last_spoken := last_spoken t |}, None)
    else ({| tts_running := tts_running t; speech_queue := q;
             last_spoken := if speak_ok then capped text else last_spoken t |},
          Some (capped text)).
Proof.
  intros Hq. unfold speech_worker_step, capped. rewrite Hq. cbn [last_spoken].
  destruct (negb (truthy text) || (len (strip text) <? 2)); [reflexivity |].
  cbn [orb]. destruct (eqb text (last_spoken t)); [reflexivity |].
  destruct speak_ok; reflexivity.
Qed.

Lemma long_enough_passes (text : str) :
  long_enough text = true ->
  negb (truthy text) || (len (strip text) <? 2) = false.
Proof.
  unfold long_enough. intros H. apply andb_true_iff in H as [Ht Hl].
  rewrite Ht. cbn [negb orb]. apply Nat.ltb_lt in Hl. apply Nat.ltb_ge. lia.
Qed.

Lemma speak_accepts (t : TTSEngine) (text : str) :
  long_enough text = true -> speech_queue (speak t text) = [text]
  /\ last_spoken (speak t text) = last_spoken t
  /\ tts_running (speak t text) = tts_running t.
Proof.
  intros H. unfold speak. rewrite H. cbn. unfold queue_put.
  now rewrite drain_empty.
Qed.

(** X8: whatever a pass of the speech worker hands to the synthesizer
    has at most [MAX_AUDIO_LENGTH] (15) words. *)
Theorem speech_worker_step_word_cap (speak_ok : bool) (t t' : TTSEngine)
    (handed : str) :
  speech_worker_step speak_ok t = (t', Some handed) ->
  List.length (split handed) <= MAX_AUDIO_LENGTH.
Proof.
  destruct (speech_queue t) as [| text q] eqn:Hq.
  - unfold speech_worker_step. rewrite Hq. discriminate.
  - rewrite (speech_worker_step_head speak_ok t Hq).
    destruct (_ || _ || _); [discriminate |].
    intros E. injection E as _ <-. apply capped_word_count.
Qed.

Lemma speech_worker_step_word_cap_witness :
  List.length (split fifteen_words) <= MAX_AUDIO_LENGTH.
Proof.
  apply (speech_worker_step_word_cap true (speak TTSEngine_init sixteen_words)
           (t' := {| tts_running := true; speech_queue := [];
                     last_spoken := fifteen_words |})).
  vm_compute. reflexivity.
Defined.

(** X9: a text that [speak] accepts and that differs from the one last
    spoken is handed to the synthesizer by the next pass of the worker,
    cut to its first 15 words if it has more and verbatim otherwise,
    and the queue is empty afterwards. *)
Theorem speak_then_worker_hands_capped (speak_ok : bool) (t : TTSEngine) (text : str) :
  long_enough text = true ->
  eqb text (last_spoken t) = false ->
  speech_worker_step speak_ok (speak t text)
  = ({| tts_running := tts_running t; speech_queue := [];
        last_spoken := if speak_ok then capped text else last_spoken t |},
     Some (capped text)).
Proof.
  intros Hl Hne. destruct (speak_accepts t text Hl) as (Hq & Hs & Hr).
  rewrite (speech_worker_step_head speak_ok _ Hq).
  rewrite Hs, Hr, Hne, (long_enough_passes text Hl). reflexivity.
Qed.

Lemma speak_then_worker_hands_capped_witness :
  snd (speech_worker_step true (speak TTSEngine_init (py "a red car")))
  = Some (py "a red car").
Proof.
  rewrite (speak_then_worker_hands_capped true TTSEngine_init (py "a red car"));
    reflexivity.
Defined.

(** The text last spoken once [text] went through [speak] and a pass
    of the worker whose call of the synthesizer returned. *)
Lemma last_spoken_after_pass (t : TTSEngine) (text : str) :
  long_enough text = true ->
  speech_queue (fst (speech_worker_step true (speak t text))) = []
  /\ last_spoken (fst (speech_worker_step true (speak t text)))
     = if eqb text (last_spoken t) then last_spoken t else capped text.
Proof.
  intros Hl. destruct (speak_accepts t text Hl) as (Hq & Hs & Hr).
  rewrite (speech_worker_step_head true _ Hq).
  rewrite Hs, Hr, (long_enough_passes text Hl). cbn [orb].
  destruct (eqb text (last_spoken t)); split; reflexivity.
Qed.

(** X10: a text of at most 15 words is not spoken twice in a row: once
    it went through [speak] and a pass of the worker, enqueuing it
    again makes the next pass hand nothing to the synthesizer. *)
Theorem repeated_text_not_spoken_again (speak_ok : bool) (t : TTSEngine) (text : str) :
  long_enough text = true ->
  List.length (split text) <= MAX_AUDIO_LENGTH ->
  snd (speech_worker_step speak_ok
         (speak (fst (speech_worker_step true (speak t text))) text))
  = None.
Proof.
  intros Hl Hw. destruct (last_spoken_after_pass t text Hl) as [_ Hlast].
  set (t1 := fst (speech_worker_step true (speak t text))) in *.
  destruct (speak_accepts t1 text Hl) as (Hq & Hs & Hr).
  rewrite (speech_worker_step_head speak_ok _ Hq), Hs, Hlast.
  assert (E : eqb text (if eqb text (last_spoken t) then last_spoken t
                        else capped text) = true).
  { destruct (eqb text (last_spoken t)) eqn:E1; [exact E1 |].
    rewrite capped_short by assumption. apply eqb_refl. }
  rewrite E, orb_true_r. reflexivity.
Qed.

Lemma repeated_text_not_spoken_again_witness :
  snd (speech_worker_step true
         (speak (fst (speech_worker_step true (speak TTSEngine_init (py "a red car"))))
            (py "a red car")))
  = None.
Proof.
  apply (repeated_text_not_spoken_again true TTSEngine_init (py "a red car")).
  - reflexivity.
  - vm_compute. lia.
Defined.

(** X11: a text of more than 15 words is spoken again when it is
    enqueued a second time: the worker remembers the cut text, which
    the full text never equals, so each pass hands its first 15 words
    to the synthesizer anew. *)
Theorem repeated_long_text_spoken_again (speak_ok : bool) (t : TTSEngine) (text : str) :
  long_enough text = true ->
  MAX_AUDIO_LENGTH < List.length (split text) ->
  eqb text (last_spoken t) = false ->
  snd (speech_worker_step speak_ok
         (speak (fst (speech_worker_step true (speak t text))) text))
  = Some (capped text).
Proof.
  intros Hl Hw Hne. destruct (last_spoken_after_pass t text Hl) as [_ Hlast].
  rewrite Hne in Hlast.
  set (t1 := fst (speech_worker_step true (speak t text))) in *.
  destruct (speak_accepts t1 text Hl) as (Hq & Hs & Hr).
  rewrite (speech_worker_step_head speak_ok _ Hq), Hs, Hlast.
  rewrite (long_enough_passes text Hl). cbn [orb].
  assert (E : eqb text (capped text) = false).
  { apply eqb_neq. intros E. now apply (capped_long Hw). }
  rewrite E. reflexivity.
Qed.

Lemma repeated_long_text_spoken_again_witness :
  snd (speech_worker_step true
         (speak (fst (speech_worker_step true (speak TTSEngine_init sixteen_words)))
            sixteen_words))
  = Some fifteen_words.
Proof.
  rewrite (repeated_long_text_spoken_again true TTSEngine_init sixteen_words).
  - vm_compute. reflexivity.
  - reflexivity.
  - vm_compute. lia.
  - reflexivity.
Defined.

(** ** The detection cycle *)

Section Cycle.

Context {Frame : Type} `{Capabilities Frame}.

(** The buffer and the displayed strings after a cycle. *)
Lemma detection_cycle_display (frame : Frame) (g : Globals) :
  let g' := globals_after (detection_cycle frame g) in
  let detected_text := detect_text frame in
  let caption := detect_objects frame in
  ocr_text_buffer g' = snd (check_text_stability detected_text (ocr_text_buffer g))
  /\ current_text g'
     = (if truthy detected_text then detected_text else py "No text detected")
  /\ current_objects g'
     = (if truthy (stable_text_of frame g) then py "[Paused during text reading]"
        else if truthy caption then caption else py "No objects detected").
Proof.
  unfold stable_text_of, detection_cycle, bind, call_check_text_stability.
  destruct (check_text_stability (detect_text frame) (ocr_text_buffer g))
    as [stable_text buffer].
  cbn [fst snd]. cbn -[detect_text detect_objects].
  destruct (truthy stable_text); cbn -[detect_text detect_objects].
  - destruct (negb (eqb stable_text (last_spoken_text g)));
      cbn; repeat split; reflexivity.
  - destruct (ocr_mode_active g); cbn -[detect_text detect_objects];
      match goal with
      | |- context [if ?b && ?c then _ else _] => destruct (b && c)
      end; cbn -[detect_text detect_objects]; repeat split; reflexivity.
Qed.

(** What a cycle does to the speech engine: nothing, or one [speak]. *)
Lemma detection_cycle_speaks (frame : Frame) (g : Globals) :
  let r := detection_cycle frame g in
  let g' := globals_after r in
  (filter is_speak (events_of r) = [] /\ tts g' = tts g
   /\ current_audio g' = current_audio g)
  \/ (exists text,
         filter is_speak (events_of r) = [CallSpeak text]
         /\ truthy text = true
         /\ tts g' = speak (tts g) text
         /\ last_spoken_text g' = text
         /\ current_audio g' = text).
Proof.
  cbv zeta. destruct (truthy (stable_text_of frame g)) eqn:Hs.
  - destruct (detection_cycle_text frame g Hs) as (Hev & _ & Hl & Ht & Ha).
    rewrite Hev, Ht, Ha, Hl.
    destruct (negb _).
    + right. exists (stable_text_of frame g). repeat split; auto.
    + left. repeat split; reflexivity.
  - destruct (detection_cycle_objects frame g Hs)
      as ((at_call & Hev & _) & _ & Hl & Ht & Ha).
    rewrite Hev, Ht, Ha, Hl.
    destruct (truthy (detect_objects frame)) eqn:Hc; cbn [andb].
    + destruct (negb _).
      * right. exists (detect_objects frame). repeat split; auto.
      * left. repeat split; reflexivity.
    + left. repeat split; reflexivity.
Qed.

(** X12: a detection cycle calls [speak] at most once; when it does,
    the text is non-empty and is recorded both as the last-spoken string
    and as the audio shown on the dashboard. *)
Theorem detection_cycle_speaks_at_most_once (frame : Frame) (g : Globals) :
  let r := detection_cycle frame g in
  let g' := globals_after r in
  List.length (filter is_speak (events_of r)) <= 1
  /\ forall text, In (CallSpeak text) (events_of r) ->
       truthy text = true /\ last_spoken_text g' = text /\ current_audio g' = text
       /\ tts g' = speak (tts g) text.
Proof.
  cbv zeta.
  destruct (detection_cycle_speaks frame g)
    as [(Hev & Ht & Ha) | (text & Hev & Hne & Ht & Hl & Ha)].
  - rewrite Hev. split; [cbn; lia |].
    intros text Hin.
    assert (Hf : In (CallSpeak text) (filter is_speak (events_of (detection_cycle frame g))))
      by (apply filter_In; split; [exact Hin | reflexivity]).
    rewrite Hev in Hf. contradiction.
  - rewrite Hev. split; [cbn; lia |].
    intros text' Hin.
    assert (Hf : In (CallSpeak text') (filter is_speak (events_of (detection_cycle frame g))))
      by (apply filter_In; split; [exact Hin | reflexivity]).
    rewrite Hev in Hf. destruct Hf as [E | []]. injection E as <-.
    repeat split; assumption.
Qed.

(** X13: after every detection cycle the mode flag tells whether this
    cycle found stable text, and [/status] reports the detected text or
    [No text detected], and the pause notice, the caption or
    [No objects detected]: neither field is empty. *)
Theorem status_after_cycle (frame : Frame) (g : Globals) :
  let g' := globals_after (detection_cycle frame g) in
  ocr_mode_active g' = truthy (stable_text_of frame g)
  /\ status g'
     = [(py "audio", current_audio g');
        (py "text",
         if truthy (detect_text frame) then detect_text frame
         else py "No text detected");
        (py "objects",
         if truthy (stable_text_of frame g) then py "[Paused during text reading]"
         else if truthy (detect_objects frame) then detect_objects frame
              else py "No objects detected")]
  /\ Forall (fun kv => fst kv = py "audio" \/ truthy (snd kv) = true) (status g').
Proof.
  cbv zeta. destruct (detection_cycle_display frame g) as (_ & Ht & Ho).
  assert (Hm : ocr_mode_active (globals_after (detection_cycle frame g))
               = truthy (stable_text_of frame g)).
  { destruct (truthy (stable_text_of frame g)) eqn:Hs.
    - now destruct (detection_cycle_text frame g Hs) as (_ & Hm & _).
    - now destruct (detection_cycle_objects frame g Hs) as (_ & Hm & _). }
  split; [exact Hm |].
  unfold status. rewrite Ht, Ho. split; [reflexivity |].
  constructor; [| constructor; [| constructor; [| constructor]]]; cbn [fst snd].
  - now left.
  - right. destruct (truthy (detect_text frame)) eqn:E; [exact E | reflexivity].
  - right. destruct (truthy (stable_text_of frame g)); [reflexivity |].
    destruct (truthy (detect_objects frame)) eqn:E; [exact E | reflexivity].
Qed.

End Cycle.

(** ** Runs of the detection worker *)

Lemma globals_after_bind {A B} (c : M A) (k : A -> M B) (g : Globals) :
  globals_after (bind c k g)
  = globals_after (k (fst (fst (c g))) (globals_after (c g))).
Proof.
  unfold bind, globals_after.
  destruct (c g) as [[a g1] l1]. cbn.
  destruct (k a g1) as [[b g2] l2]. reflexivity.
Qed.

Lemma check_text_stability_steady (T : str) :
  truthy T = true -> check_text_stability T [T; T] = (T, [T; T]).
Proof.
  intros Ht. unfold check_text_stability. cbn.
  now rewrite Ht, eqb_refl.
Qed.

Section Worker.

Context {Frame : Type} `{Capabilities Frame}.

Lemma detection_worker_buffer (frames : list Frame) (g : Globals) :
  ocr_text_buffer (globals_after (detection_worker frames g))
  = fold_left (fun buffer t => snd (check_text_stability t buffer))
      (map detect_text frames) (ocr_text_buffer g).
Proof.
  revert g. induction frames as [| f rest IH]; intros g; [reflexivity |].
  cbn [detection_worker map fold_left]. rewrite globals_after_bind, IH.
  now destruct (detection_cycle_display f g) as (-> & _).
Qed.

(** X14: after the worker has processed any frames from the initial
    state, the stability buffer holds the texts detected in the last two
    of them, oldest first. *)
Theorem detection_worker_buffer_last_two (frames : list Frame) :
  ocr_text_buffer (globals_after (detection_worker frames Globals_init))
  = last_n OCR_STABILITY_FRAMES (map detect_text frames).
Proof.
  rewrite detection_worker_buffer. cbn [ocr_text_buffer Globals_init].
  apply buffer_after_last_n.
Qed.

(** X15: while the same non-empty text that was already spoken stays in
    view, the worker is silent: over any number of such frames it calls
    neither [detect_objects] nor [speak] and leaves the speech engine
    untouched. *)
Theorem steady_text_is_silent (frames : list Frame) (g : Globals) (T : str) :
  truthy T = true ->
  ocr_text_buffer g = [T; T] ->
  last_spoken_text g = T ->
  Forall (fun f => detect_text f = T) frames ->
  events_of (detection_worker frames g) = []
  /\ tts (globals_after (detection_worker frames g)) = tts g.
Proof.
  intros Ht Hb Hl Hall. revert g Hb Hl.
  induction Hall as [| f rest Hf _ IH]; intros g Hb Hl; [split; reflexivity |].
  cbn [detection_worker]. rewrite events_of_bind, globals_after_bind.
  assert (Hs : stable_text_of f g = T).
  { unfold stable_text_of. now rewrite Hf, Hb, check_text_stability_steady. }
  assert (Hs' : truthy (stable_text_of f g) = true) by now rewrite Hs.
  destruct (detection_cycle_text f g Hs') as (Hev & _ & Hl' & Ht' & _).
  destruct (detection_cycle_display f g) as (Hb' & _).
  rewrite Hs, Hl, eqb_refl in *. cbn [negb] in *.
  rewrite Hf, Hb, check_text_stability_steady in Hb' by assumption.
  destruct (IH _ Hb' Hl') as [IHe IHt].
  rewrite Hev, IHe, IHt, Ht'. split; reflexivity.
Qed.

End Worker.

Lemma steady_text_is_silent_witness :
  events_of (detection_worker [frame_stop; frame_stop; frame_stop] state_reading_stop)
  = []
  /\ tts (globals_after
            (detection_worker [frame_stop; frame_stop; frame_stop] state_reading_stop))
     = tts state_reading_stop.
Proof.
  apply (@steady_text_is_silent SampleFrame sample_capabilities
           [frame_stop; frame_stop; frame_stop] state_reading_stop (py "STOP")).
  - reflexivity.
  - reflexivity.
  - reflexivity.
  - repeat constructor.
Defined.

(** ** The camera worker *)

Example camera_worker_sample :
  camera_worker (fun n => n * 10) true [Some 1; None; Some 2; Some 3]
    (camera_state_init nat nat)
  = Some {| last_frame_jpg := Some 30;
            frame_queue := {| maxsize := 2; items := [1; 2] |};
            frame_count := 3 |}.
Proof. reflexivity. Qed.

Lemma camera_enqueue_items {Frame} (q : FrameQueue Frame) (frame : Frame) :
  0 < maxsize q ->
  camera_enqueue q frame
  = Some {| maxsize := maxsize q;
            items := items q
                     ++ firstn (maxsize q - List.length (items q)) [frame] |}.
Proof.
  intros Hm. unfold camera_enqueue, put, full.
  destruct (Nat.ltb_spec 0 (maxsize q)) as [_ | Hz]; [| lia]. cbn [andb].
  destruct (Nat.leb_spec (maxsize q) (List.length (items q))) as [Hle | Hlt];
    cbn [negb].
  - replace (maxsize q - List.length (items q)) with 0 by lia.
    cbn [firstn]. rewrite app_nil_r. now destruct q.
  - destruct (maxsize q - List.length (items q)) as [| k] eqn:E; [lia |].
    cbn [firstn]. now rewrite firstn_nil.
Qed.

Section Camera.

Context {Frame Jpg : Type} (imencode : Frame -> Jpg).

(** X16: the camera worker never waits on the frame queue, and the
    queue keeps the oldest frames: to the frames already queued it adds
    the first successfully read frames as far as slots are free, and
    drops every later one. Its counter counts the successful reads. *)
Theorem camera_worker_keeps_oldest (reads : list (option Frame))
    (st : CameraState Frame Jpg) :
  0 < maxsize (frame_queue st) ->
  exists st',
    camera_worker imencode true reads st = Some st'
    /\ maxsize (frame_queue st') = maxsize (frame_queue st)
    /\ items (frame_queue st')
       = items (frame_queue st)
         ++ firstn (maxsize (frame_queue st) - List.length (items (frame_queue st)))
              (successful reads)
    /\ frame_count st' = frame_count st + List.length (successful reads).
Proof.
  cbn [camera_worker]. revert st.
  induction reads as [| [frame |] rest IH]; intros st Hm.
  - exists st. cbn. rewrite firstn_nil, app_nil_r.
    repeat split; auto.
  - cbn [camera_loop camera_step successful].
    rewrite camera_enqueue_items by assumption.
    match goal with
    | |- context [camera_loop imencode rest ?s] =>
        destruct (IH s) as (st' & Hrun & Hms & Hit & Hc); [exact Hm |]
    end.
    exists st'. cbn [frame_queue maxsize items frame_count] in *.
    rewrite Hrun, Hms, Hit, Hc. repeat split; [| cbn [List.length]; lia].
    rewrite <- app_assoc. f_equal.
    rewrite length_app.
    destruct (maxsize (frame_queue st) - List.length (items (frame_queue st)))
      as [| k] eqn:E.
    + cbn [firstn List.length app].
      replace (maxsize (frame_queue st)
               - (List.length (items (frame_queue st)) + 0)) with 0 by lia.
      reflexivity.
    + cbn [firstn List.length app]. rewrite firstn_nil. cbn [List.length app].
      replace (maxsize (frame_queue st)
               - (List.length (items (frame_queue st)) + 1)) with k by lia.
      reflexivity.
  - cbn [camera_loop camera_step successful]. now apply IH.
Qed.

(** X17: after the camera worker has run, the frame shown by the
    dashboard is the encoding of the last frame read successfully,
    whether or not that frame was queued for detection; when no read
    succeeded it is the one shown before. *)
Theorem camera_worker_latest_jpg (reads : list (option Frame))
    (st : CameraState Frame Jpg) :
  exists st',
    camera_worker imencode true reads st = Some st'
    /\ last_frame_jpg st'
       = match rev (successful reads) with
         | [] => last_frame_jpg st
         | frame :: _ => Some (imencode frame)
         end.
Proof.
  cbn [camera_worker]. revert st.
  induction reads as [| [frame |] rest IH]; intros st.
  - exists st. split; reflexivity.
  - cbn [camera_loop camera_step successful].
    destruct (camera_enqueue (frame_queue st) frame) as [q |] eqn:E;
      [| now apply camera_enqueue_never_blocks in E].
    match goal with
    | |- context [camera_loop imencode rest ?s] =>
        destruct (IH s) as (st' & Hrun & Hjpg)
    end.
    exists st'. split; [exact Hrun |].
    rewrite Hjpg. cbn [last_frame_jpg rev].
    destruct (rev (successful rest)); reflexivity.
  - cbn [camera_loop camera_step successful]. apply IH.
Qed.

End Camera.

Lemma camera_worker_keeps_oldest_witness :
  exists st',
    camera_worker (fun n => n * 10) true [Some 1; None; Some 2; Some 3]
      (camera_state_init nat nat) = Some st'
    /\ items (frame_queue st') = [1; 2].
Proof.
  destruct (camera_worker_keeps_oldest (fun n => n * 10)
              [Some 1; None; Some 2; Some 3] (camera_state_init nat nat))
    as (st' & Hrun & _ & Hit & _); [cbn; lia |].
  exists st'. split; [exact Hrun | exact Hit].
Defined.

(** ** The threads together *)

Lemma subseq_nil_l {A} (m : list A) : subseq [] m.
Proof. induction m; constructor; assumption. Qed.

Lemma subseq_snoc_skip {A} (l m : list A) (x : A) :
  subseq l m -> subseq l (m ++ [x]).
Proof.
  induction 1; cbn.
  - repeat constructor.
  - now constructor.
  - now constructor.
Qed.

Lemma subseq_snoc_keep {A} (l m : list A) (x : A) :
  subseq l m -> subseq (l ++ [x]) (m ++ [x]).
Proof.
  induction 1; cbn.
  - apply subseq_keep, subseq_nil.
  - now constructor.
  - now constructor.
Qed.

Lemma subseq_app_l {A} (l k m : list A) : subseq (l ++ k) m -> subseq l m.
Proof.
  intros H. remember (l ++ k) as lk eqn:E. revert l k E.
  induction H as [| x lk m _ IH | x lk m _ IH]; intros l k E.
  - symmetry in E. apply app_eq_nil in E as [-> _]. constructor.
  - constructor. now apply (IH l k).
  - destruct l as [| y l'].
    + apply subseq_nil_l.
    + cbn in E. injection E as <- ->. apply subseq_keep. now apply (IH l' k).
Qed.

Lemma speak_queue (t : TTSEngine) (text : str) :
  speech_queue (speak t text) = speech_queue t
  \/ speech_queue (speak t text) = [text].
Proof.
  unfold speak. destruct (long_enough text); [right | now left].
  cbn. unfold queue_put. now rewrite drain_empty.
Qed.

Section Threads.

Context {Frame : Type} `{Capabilities Frame}.

Lemma pipeline_init_inv : pipeline_inv (pipeline_init Frame).
Proof.
  unfold pipeline_inv. cbn. repeat split; try lia; constructor.
Qed.

Lemma pipeline_step_inv (a : Action Frame) (p : Pipeline Frame) :
  pipeline_inv p -> exists p', pipeline_step a p = Some p' /\ pipeline_inv p'.
Proof.
  intros (Hm & Hlen & Hsq & Hsub & Hq & Hsp).
  destruct a as [frame | | speak_ok]; cbn [pipeline_step].
  - rewrite camera_enqueue_items by lia. eexists. split; [reflexivity |].
    unfold pipeline_inv. cbn [pipe_queue pipe_globals captured detected calls
                                spoken maxsize items].
    rewrite Hm.
    destruct (2 - List.length (items (pipe_queue p))) as [| k] eqn:E;
      cbn [firstn]; rewrite ?firstn_nil, ?app_nil_r.
    + repeat split; auto. now apply subseq_snoc_skip.
    + repeat split; auto.
      * rewrite length_app. cbn. lia.
      * rewrite app_assoc. now apply subseq_snoc_keep.
  - unfold get. destruct (items (pipe_queue p)) as [| frame rest] eqn:Hi.
    + exists p. split; [reflexivity |].
      unfold pipeline_inv. rewrite Hi. repeat split; auto.
    + eexists. split; [reflexivity |].
      unfold pipeline_inv. cbn [pipe_queue pipe_globals captured detected calls
                                  spoken maxsize items].
      assert (Hcalls : forall t, In (CallSpeak t) (calls p) ->
                In (CallSpeak t)
                  (calls p ++ events_of (detection_cycle frame (pipe_globals p))))
        by (intros t Hin; apply in_or_app; now left).
      repeat split.
      * exact Hm.
      * cbn in Hlen. lia.
      * destruct (detection_cycle_speaks frame (pipe_globals p))
          as [(_ & -> & _) | (text & _ & _ & -> & _)]; [exact Hsq |].
        destruct (speak_queue (tts (pipe_globals p)) text) as [-> | ->];
          [exact Hsq | cbn; lia].
      * rewrite <- app_assoc. exact Hsub.
      * destruct (detection_cycle_speaks frame (pipe_globals p))
          as [(_ & -> & _) | (text & Hev & _ & -> & _)].
        -- eapply Forall_impl; [| exact Hq]. exact Hcalls.
        -- destruct (speak_queue (tts (pipe_globals p)) text) as [-> | ->].
           ++ eapply Forall_impl; [| exact Hq]. exact Hcalls.
           ++ constructor; [| constructor].
              apply in_or_app. right.
              assert (Hin : In (CallSpeak text)
                              (filter is_speak
                                 (events_of (detection_cycle frame (pipe_globals p)))))
                by (rewrite Hev; now left).
              now apply filter_In in Hin.
      * eapply Forall_impl; [| exact Hsp].
        intros s (t & Hin & ->). exists t. split; [now apply Hcalls | reflexivity].
  - eexists. split; [reflexivity |].
    unfold pipeline_inv, speech_worker_iteration.
    cbn [pipe_queue pipe_globals captured detected calls spoken].
    destruct (tts_running (tts (pipe_globals p))).
    + destruct (speech_queue (tts (pipe_globals p))) as [| text q] eqn:Hqueue.
      * unfold speech_worker_step. rewrite Hqueue. cbn.
        rewrite Hqueue, app_nil_r. repeat split; auto; cbn; lia.
      * rewrite (speech_worker_step_head speak_ok _ Hqueue).
        inversion Hq as [| ? ? Hin Hq']; subst.
        destruct (_ || _ || _); cbn.
        -- rewrite app_nil_r. repeat split; auto. cbn in Hsq. lia.
        -- repeat split; auto; [cbn in Hsq; lia |].
           apply Forall_app. split; [exact Hsp |].
           constructor; [| constructor]. now exists text.
    + cbn. rewrite app_nil_r.
      destruct (pipe_globals p) as [? ? ? ? ? ? []]. cbn in *.
      repeat split; auto.
Qed.

Lemma pipeline_run_inv (actions : list (Action Frame)) (p : Pipeline Frame) :
  pipeline_inv p -> exists p', pipeline_run actions p = Some p' /\ pipeline_inv p'.
Proof.
  revert p. induction actions as [| a rest IH]; intros p Hinv.
  - exists p. split; [reflexivity | exact Hinv].
  - destruct (pipeline_step_inv a Hinv) as (p1 & Hstep & Hinv1).
    destruct (IH p1 Hinv1) as (p' & Hrun & Hinv').
    exists p'. cbn [pipeline_run]. rewrite Hstep. split; assumption.
Qed.

(** X18: however the passes of the camera, detection and speech threads
    interleave from start-up, no thread waits on a full queue, the frame
    queue never holds more than two frames and the speech queue never
    more than one text. *)
Theorem pipeline_queues_bounded (actions : list (Action Frame)) :
  exists p,
    pipeline_run actions (pipeline_init Frame) = Some p
    /\ List.length (items (pipe_queue p)) <= 2
    /\ List.length (speech_queue (tts (pipe_globals p))) <= 1.
Proof.
  destruct (pipeline_run_inv actions pipeline_init_inv)
    as (p & Hrun & _ & Hlen & Hsq & _).
  exists p. repeat split; assumption.
Qed.

(** X19: the frames detection has processed, followed by the frames
    still queued, are frames the camera captured, in the order of
    capture and each at most once; frames are dropped, never repeated
    or reordered. *)
Theorem pipeline_frames_in_capture_order (actions : list (Action Frame)) :
  exists p,
    pipeline_run actions (pipeline_init Frame) = Some p
    /\ subseq (detected p ++ items (pipe_queue p)) (captured p)
    /\ subseq (detected p) (captured p).
Proof.
  destruct (pipeline_run_inv actions pipeline_init_inv)
    as (p & Hrun & _ & _ & _ & Hsub & _).
  exists p. repeat split; [assumption | assumption |].
  now apply subseq_app_l in Hsub.
Qed.

(** X20: every string the speech worker hands to the synthesizer is a
    text the detection thread passed to [speak], cut to its first 15
    words if it had more; nothing else is ever spoken. *)
Theorem pipeline_spoken_was_announced (actions : list (Action Frame)) :
  exists p,
    pipeline_run actions (pipeline_init Frame) = Some p
    /\ Forall (fun s => List.length (split s) <= MAX_AUDIO_LENGTH
                        /\ exists t, In (CallSpeak t) (calls p) /\ s = capped t)
         (spoken p).
Proof.
  destruct (pipeline_run_inv actions pipeline_init_inv)
    as (p & Hrun & _ & _ & _ & _ & _ & Hsp).
  exists p. split; [assumption |].
  eapply Forall_impl; [| exact Hsp].
  intros s (t & Hin & ->). split; [apply capped_word_count | now exists t].
Qed.

End Threads.

Example pipeline_sample_run :
  exists p,
    pipeline_run
      [Capture frame_stop; Capture frame_stop; Capture frame_car;
       Detect; Detect; Speech true; Detect]
      (pipeline_init SampleFrame) = Some p
    /\ captured p = [frame_stop; frame_stop; frame_car]
    /\ detected p = [frame_stop; frame_stop]
    /\ filter is_speak (calls p) = [CallSpeak (py "a red car"); CallSpeak (py "STOP")]
    /\ spoken p = [py "STOP"].
Proof. eexists. split; [vm_compute; reflexivity |]. cbn. repeat split; reflexivity. Qed.

(** ** Stability across two frames *)

(** X21: the stability check returns the observed text exactly when it
    is non-empty and equal to the observation just before it; older
    observations play no part, and the first call returns nothing. *)
Theorem check_text_stability_previous (observations : list str) (previous t : str) :
  fst (check_text_stability t (buffer_after (observations ++ [previous])))
  = (if truthy t && eqb previous t then t else [])
  /\ fst (check_text_stability t (buffer_after [])) = [].
Proof.
  split; [| reflexivity].
  rewrite buffer_after_last_n. unfold last_n. rewrite rev_app_distr.
  cbn [rev app]. destruct (rev observations) as [| a o]; cbn.
  - destruct previous as [| c p]; cbn [truthy negb].
    + destruct t; reflexivity.
    + destruct (eqb t (c :: p)) eqn:E; cbn [negb].
      * apply eqb_eq in E. subst. now rewrite eqb_refl.
      * destruct (eqb (c :: p) t) eqn:E'.
        -- apply eqb_eq in E'. subst. now rewrite eqb_refl in E.
        -- now rewrite andb_false_r.
  - destruct previous as [| c p]; cbn [truthy negb].
    + destruct t; reflexivity.
    + destruct (eqb t (c :: p)) eqn:E; cbn [negb].
      * apply eqb_eq in E. subst. now rewrite eqb_refl.
      * destruct (eqb (c :: p) t) eqn:E'.
        -- apply eqb_eq in E'. subst. now rewrite eqb_refl in E.
        -- now rewrite andb_false_r.
Qed.

Section TwoFrames.

Context {Frame : Type} `{Capabilities Frame}.

Lemma check_text_stability_twice (buffer : list str) (T : str) :
  truthy T = true -> List.length buffer <= OCR_STABILITY_FRAMES ->
  check_text_stability T (snd (check_text_stability T buffer)) = (T, [T; T]).
Proof.
  intros Ht Hlen. unfold OCR_STABILITY_FRAMES in Hlen.
  destruct buffer as [| a [| b [| c rest]]]; cbn in Hlen; try lia;
    unfold check_text_stability; cbn.
  - now rewrite Ht, eqb_refl.
  - destruct (truthy a), (negb (eqb T a)); cbn; now rewrite Ht, eqb_refl.
  - destruct (truthy b), (negb (eqb T b)); cbn; now rewrite Ht, eqb_refl.
Qed.

(** X22: when two consecutive frames show the same non-empty text, the
    second cycle finds it stable whatever was seen before: it makes no
    call of [detect_objects], sets the mode flag and leaves that text as
    the last-spoken string, calling [speak] with it unless it already
    was. *)
Theorem same_text_twice_enters_ocr_mode (f1 f2 : Frame) (g : Globals) (T : str) :
  truthy T = true ->
  detect_text f1 = T -> detect_text f2 = T ->
  List.length (ocr_text_buffer g) <= OCR_STABILITY_FRAMES ->
  let g1 := globals_after (detection_cycle f1 g) in
  let r2 := detection_cycle f2 g1 in
  stable_text_of f2 g1 = T
  /\ events_of r2
     = (if eqb T (last_spoken_text g1) then [] else [CallSpeak T])
  /\ ocr_mode_active (globals_after r2) = true
  /\ last_spoken_text (globals_after r2) = T.
Proof.
  intros Ht H1 H2 Hlen. cbv zeta.
  destruct (detection_cycle_display f1 g) as (Hb & _).
  assert (Hs : stable_text_of f2 (globals_after (detection_cycle f1 g)) = T).
  { unfold stable_text_of. rewrite Hb, H1, H2.
    now rewrite check_text_stability_twice. }
  assert (Hs' : truthy (stable_text_of f2 (globals_after (detection_cycle f1 g))) = true)
    by now rewrite Hs.
  destruct (detection_cycle_text f2 _ Hs') as (Hev & Hm & Hl & _).
  rewrite Hev, Hm, Hl, Hs.
  repeat split. now destruct (eqb T _).
Qed.

End TwoFrames.

Lemma same_text_twice_enters_ocr_mode_witness :
  events_of
    (detection_cycle frame_stop
       (globals_after (detection_cycle frame_stop Globals_init)))
  = [CallSpeak (py "STOP")]
  /\ ocr_mode_active
       (globals_after
          (detection_cycle frame_stop
             (globals_after (detection_cycle frame_stop Globals_init))))
     = true.
Proof.
  destruct (@same_text_twice_enters_ocr_mode SampleFrame sample_capabilities
              frame_stop frame_stop Globals_init (py "STOP"))
    as (_ & Hev & Hm & _); try reflexivity.
  - cbn. lia.
  - split; [exact Hev | exact Hm].
Defined.

(** ** A failed utterance *)

(** X23: when the synthesizer raises on a text, the worker does not
    remember it as spoken: the text is gone from the queue, and enqueued
    again it is handed to the synthesizer once more. *)
Theorem failed_text_spoken_on_retry (speak_ok : bool) (t : TTSEngine) (text : str) :
  long_enough text = true ->
  eqb text (last_spoken t) = false ->
  speech_worker_step false (speak t text)
  = ({| tts_running := tts_running t; speech_queue := [];
        last_spoken := last_spoken t |}, Some (capped text))
  /\ snd (speech_worker_step speak_ok
            (speak (fst (speech_worker_step false (speak t text))) text))
     = Some (capped text).
Proof.
  intros Hl Hne.
  assert (Hstep : forall t0 ok, eqb text (last_spoken t0) = false ->
            speech_worker_step ok (speak t0 text)
            = ({| tts_running := tts_running t0; speech_queue := [];
                  last_spoken := if ok then capped text else last_spoken t0 |},
               Some (capped text))).
  { intros t0 ok Hne0. destruct (speak_accepts t0 text Hl) as (Hq & Hs & Hr).
    rewrite (speech_worker_step_head ok _ Hq).
    rewrite Hs, Hr, Hne0, (long_enough_passes text Hl). reflexivity. }
  split.
  - now rewrite Hstep.
  - rewrite (Hstep t false Hne). cbn [fst].
    rewrite Hstep; [reflexivity | exact Hne].
Qed.

Lemma failed_text_spoken_on_retry_witness :
  snd (speech_worker_step true
         (speak (fst (speech_worker_step false (speak TTSEngine_init (py "STOP"))))
            (py "STOP")))
  = Some (py "STOP").
Proof.
  destruct (failed_text_spoken_on_retry true TTSEngine_init (py "STOP"))
    as [_ Hretry]; [reflexivity | reflexivity | exact Hretry].
Defined.
